(** * LoRA merging engine of [scripts/merge_character_loras.py]

    A shallow embedding of [apply_lora_to_weights] and
    [merge_loras_for_character], together with the part of the torch and
    safetensors interfaces that the two functions call.

    Conventions of the model.
    - A weight set (a Python [dict] from parameter names to tensors) is a
      [gmap string tensor]; the [set] of adapter group names is a
      [gset string], visited in the order of [elements]; Python fixes no
      order for a [set], and the last section shows what does not depend
      on it.
    - A tensor is a dtype tag, a shape and its elements in row-major order.
      Elements are rationals ([Qc]).  Every floating operation (a
      conversion [Tensor.to], a sum, a product by a number, an entry of a
      matrix product or of a contraction) yields the exact result rounded
      to the dtype of its result by the function [rnd] the development is
      parameterised by; exact arithmetic is the case where [rnd] rounds
      nothing.  Infinities and NaNs are outside the model.
    - A Python exception is a value [Raise e] of the type [result]. *)

From Stdlib Require Import QArith Qcanon Qround Ascii DecimalString DecimalNat.
From stdpp Require Import gmap strings list fin_maps numbers.

Local Open Scope string_scope.

(** ** Python strings *)

Module PyStr.

(** [s.startswith(p)] *)
Fixpoint startswith (p s : string) : bool :=
  match p, s with
  | EmptyString, _ => true
  | String a p', String b s' => if Ascii.eqb a b then startswith p' s' else false
  | String _ _, EmptyString => false
  end.

(** [sub in s] *)
Fixpoint contains (sub s : string) : bool :=
  if startswith sub s then true
  else match s with
       | EmptyString => false
       | String _ s' => contains sub s'
       end.

(** [s[n:]] *)
Fixpoint drop (n : nat) (s : string) : string :=
  match n, s with
  | O, _ => s
  | S n', String _ s' => drop n' s'
  | S _, EmptyString => EmptyString
  end.

(** [s.replace(old, new)] for a non-empty [old]: occurrences are replaced
    from left to right and do not overlap.  [skip] counts the characters
    of the occurrence just replaced that are still to be passed over. *)
Fixpoint replace_from (old new : string) (skip : nat) (s : string) : string :=
  match s with
  | EmptyString => EmptyString
  | String c s' =>
      match skip with
      | S k => replace_from old new k s'
      | O =>
          if startswith old s
          then new +:+ replace_from old new (String.length old - 1) s'
          else String c (replace_from old new 0 s')
      end
  end.

Definition replace (old new s : string) : string := replace_from old new 0 s.

(** [s.endswith(suffix)] *)
Fixpoint endswith (suffix s : string) : bool :=
  if String.eqb s suffix then true
  else match s with
       | EmptyString => false
       | String _ s' => endswith suffix s'
       end.

(** No occurrence of [pat] in [g + pat] starts inside [g]: the pattern
    occurs in [g + pat] at its end only. *)
Fixpoint no_match_in (pat g : string) : bool :=
  match g with
  | EmptyString => true
  | String _ g' => negb (startswith pat (g +:+ pat)) && no_match_in pat g'
  end.

(** [str(n)] for a non-negative integer *)
Definition of_nat (n : nat) : string := NilZero.string_of_uint (Nat.to_uint n).

End PyStr.

(** ** Exceptions *)

Inductive exn : Type :=
| IndexError
| RuntimeError
| FileNotFoundError
| SafetensorError.

Inductive result (A : Type) : Type :=
| Ok (a : A)
| Raise (e : exn).
Arguments Ok {A} a.
Arguments Raise {A} e.

Global Instance exn_eq_dec : EqDecision exn.
Proof. solve_decision. Defined.

Global Instance result_eq_dec {A : Type} `{EqDecision A} : EqDecision (result A).
Proof. solve_decision. Defined.

Global Instance result_ret : MRet result := λ A a, Ok a.

Global Instance result_bind : MBind result := λ A B k r,
  match r with
  | Ok a => k a
  | Raise e => Raise e
  end.

Global Instance result_fmap : FMap result := λ A B f r,
  match r with
  | Ok a => Ok (f a)
  | Raise e => Raise e
  end.

(** ** Tensors *)

(** The floating dtypes, which are those of the tensors of checkpoints
    and adapters. *)
Inductive torch_dtype : Type := float16 | bfloat16 | float32 | float64.

Global Instance torch_dtype_eq_dec : EqDecision torch_dtype.
Proof. solve_decision. Defined.

Record tensor : Type := Tensor {
  dtype : torch_dtype;
  shape : list nat;
  data : list Qc
}.

Global Instance tensor_eq_dec : EqDecision tensor.
Proof. solve_decision. Defined.

(** Number of elements of a shape. *)
Definition numel (sh : list nat) : nat := foldr Nat.mul 1 sh.

(** The [n] values [f 0 .. f (n-1)]. *)
Definition tabulate (n : nat) (f : nat → Qc) : list Qc := map f (seq 0 n).

(** Element at a flat index; out of range reads are [0]. *)
Definition at_ (t : tensor) (i : nat) : Qc := nth i (data t) 0%Qc.

Definition Qc_of_nat (n : nat) : Qc := Qc_of_Z (Z.of_nat n).

(** Sum of [f 0 .. f (n-1)]. *)
Fixpoint sum_upto (n : nat) (f : nat → Qc) : Qc :=
  match n with
  | O => 0%Qc
  | S k => (sum_upto k f + f k)%Qc
  end.

(** ** The torch operations the merger calls *)

Module Torch.

(** [t * c] for a Python number [c]: elementwise, dtype kept, each
    product rounded to it. *)
Definition mul_scalar (rnd : torch_dtype → Qc → Qc) (t : tensor) (c : Qc) : tensor :=
  {| dtype := dtype t;
     shape := shape t;
     data := map (λ x, rnd (dtype t) (x * c)%Qc) (data t) |}.

(** [a @ b] on two matrices.  The inner dimensions must agree and torch
    does not promote dtypes in a matrix product: both mismatches raise
    [RuntimeError].  The source calls [@] on 2-dimensional operands only.
    An entry is the dot product rounded to the dtype; the roundings inside
    the accumulation are not modelled. *)
Definition matmul (rnd : torch_dtype → Qc → Qc) (a b : tensor) : result tensor :=
  match shape a, shape b with
  | [n; k], [k'; m] =>
      if decide (k = k' ∧ dtype a = dtype b) then
        Ok {| dtype := dtype a;
              shape := [n; m];
              data := tabulate (n * m) (λ j,
                rnd (dtype a)
                  (sum_upto k (λ l, (at_ a ((j / m) * k + l)
                                     * at_ b (l * m + j mod m))%Qc))) |}
      else Raise RuntimeError
  | _, _ => Raise RuntimeError
  end.

(** Size of a label shared by two operands of [einsum]: the two sizes
    must be equal or one of them must be 1 (broadcast). *)
Definition bcast (a b : nat) : option nat :=
  if decide (a = b) then Some a
  else if decide (a = 1) then Some b
  else if decide (b = 1) then Some a
  else None.

(** Index into an axis of size [dim] that may be broadcast. *)
Definition bidx (dim i : nat) : nat := if decide (dim = 1) then 0 else i.

(** [torch.promote_types] on the floating dtypes. *)
Definition promote_types (a b : torch_dtype) : torch_dtype :=
  match a, b with
  | float64, _ | _, float64 => float64
  | float32, _ | _, float32 => float32
  | float16, float16 => float16
  | bfloat16, bfloat16 => bfloat16
  | float16, bfloat16 | bfloat16, float16 => float32
  end.

(** [torch.einsum('orhw,rich->oicw', up, down)]: the first operand has
    axes [o r h w], the second [r i c h]; [r] and [h] occur in both and
    not in the output, so they are summed over; the output has axes
    [o i c w].  A label is contracted by a batched matrix product when its
    size differs from 1 in both operands, and that product raises on
    operands of two dtypes; without such a label the operands are
    multiplied elementwise, which promotes the dtypes. *)
Definition einsum_orhw_rich_oicw (rnd : torch_dtype → Qc → Qc) (up down : tensor)
  : result tensor :=
  match shape up, shape down with
  | [no; r1; h1; nw], [r2; ni; nc; h2] =>
      match bcast r1 r2, bcast h1 h2 with
      | Some nr, Some nh =>
          if decide (dtype up = dtype down
                     ∨ ¬ ((r1 ≠ 1 ∧ r2 ≠ 1) ∨ (h1 ≠ 1 ∧ h2 ≠ 1))) then
            Ok {| dtype := promote_types (dtype up) (dtype down);
                  shape := [no; ni; nc; nw];
                  data := tabulate (no * ni * nc * nw) (λ j,
                    let w := j mod nw in
                    let c := (j / nw) mod nc in
                    let i := (j / (nw * nc)) mod ni in
                    let o := j / (nw * nc * ni) in
                    rnd (promote_types (dtype up) (dtype down))
                      (sum_upto nr (λ r, sum_upto nh (λ h,
                         (at_ up (((o * r1 + bidx r1 r) * h1 + bidx h1 h) * nw + w)
                          * at_ down (((bidx r2 r * ni + i) * nc + c) * h2
                                      + bidx h2 h))%Qc)))) |}
          else Raise RuntimeError
      | _, _ => Raise RuntimeError
      end
  | _, _ => Raise RuntimeError
  end.

(** [t.reshape(sh)] for a concrete shape [sh]: the element count must be
    kept. *)
Definition reshape (t : tensor) (sh : list nat) : result tensor :=
  if decide (numel sh = numel (shape t))
  then Ok {| dtype := dtype t; shape := sh; data := data t |}
  else Raise RuntimeError.

(** [t.item()]: only a one-element tensor converts to a Python number. *)
Definition item (t : tensor) : result Qc :=
  if decide (numel (shape t) = 1) then Ok (at_ t 0) else Raise RuntimeError.

(** [t.shape[0]] *)
Definition shape0 (t : tensor) : result nat :=
  match shape t with
  | r :: _ => Ok r
  | [] => Raise IndexError
  end.

(** [a + b] on two tensors of one shape (the source adds only after
    comparing the shapes): each sum is rounded to the dtype of the
    result. *)
Definition add (rnd : torch_dtype → Qc → Qc) (a b : tensor) : tensor :=
  {| dtype := promote_types (dtype a) (dtype b);
     shape := shape a;
     data := tabulate (numel (shape a))
               (λ i, rnd (promote_types (dtype a) (dtype b))
                       (at_ a i + at_ b i)%Qc) |}.

End Torch.

(** ** Files *)

(** What a path of the file system holds: a safetensors checkpoint or
    something [load_file] cannot read. *)
Inductive file : Type :=
| Safetensors (w : gmap string tensor)
| Unreadable.

(** [os.path.exists(path)] *)
Definition path_exists (fs : gmap string file) (path : string) : bool :=
  bool_decide (is_Some (fs !! path)).

(** [safetensors.torch.load_file(path)] *)
Definition load_file (fs : gmap string file) (path : string) : result (gmap string tensor) :=
  match fs !! path with
  | Some (Safetensors w) => Ok w
  | Some Unreadable => Raise SafetensorError
  | None => Raise FileNotFoundError
  end.

(** [safetensors.torch.save_file(w, path)] *)
Definition save_file (w : gmap string tensor) (path : string) (fs : gmap string file)
  : gmap string file :=
  <[path := Safetensors w]> fs.

(** ** Configuration *)

Definition BASE_MODEL : string := "models/unet/qwen_image_bf16.safetensors".
Definition OUTPUT_DIR : string := "models/unet".

(** The strength [0.6] is the double nearest to 6/10. *)
Definition COMMON_LORAS : list (string * Qc) :=
  [ ("models/loras/qwen-boreal-portraits-portraits-high-rank.safetensors",
     Q2Qc (5404319552844595 # 9007199254740992));
    ("models/loras/Qwen-Image-Lightning-4steps-V2.0.safetensors", 1%Qc) ].

(** The character adapters, in the order of the dictionary. *)
Definition CHARACTER_LORAS : list (string * (string * Qc)) :=
  [ ("ava", ("models/loras/vixxxen-prefabs/Ava_QWEN_v1.safetensors", 1%Qc));
    ("eve", ("models/loras/vixxxen-prefabs/Eve_QWEN_v1.safetensors", 1%Qc));
    ("suyeon", ("models/loras/vixxxen-prefabs/Suyeon_QWEN_v1.safetensors", 1%Qc)) ].

(** ** The merger *)

(** What a call of [apply_lora_to_weights] hands to its caller ([returned])
    and what it writes to the console ([printed]). *)
Record call_outcome : Type := CallOutcome {
  returned : gmap string tensor;
  printed : list string
}.

(** The group a key of the adapter set announces, if any (the body of the
    first loop of [apply_lora_to_weights]). *)
Definition group_of_key (key : string) : option string :=
  if PyStr.contains ".lora_down." key then Some (PyStr.replace ".lora_down.weight" "" key)
  else if PyStr.contains ".lora_A." key then Some (PyStr.replace ".lora_A.weight" "" key)
  else None.

(** [lora_keys]: the set of group names collected from the adapter's keys. *)
Definition lora_keys (lora_weights : gmap string tensor) : gset string :=
  list_to_set (omap group_of_key (elements (dom lora_weights))).

(** The names [down_key], [up_key] and [alpha_key] chosen for a group:
    convention 1 ([lora_down]/[lora_up]) is tried before convention 2
    ([lora_A]/[lora_B]); [None] stands for [down_key is None]. *)
Definition select_keys (lora_weights : gmap string tensor) (lora_key : string)
  : option (string * string * string) :=
  if decide (is_Some (lora_weights !! (lora_key +:+ ".lora_down.weight"))) then
    Some (lora_key +:+ ".lora_down.weight", lora_key +:+ ".lora_up.weight",
          lora_key +:+ ".alpha")
  else if decide (is_Some (lora_weights !! (lora_key +:+ ".lora_A.weight"))) then
    Some (lora_key +:+ ".lora_A.weight", lora_key +:+ ".lora_B.weight",
          lora_key +:+ ".alpha")
  else None.

(** [base_key]: the group name without a leading ["lora_unet_"]. *)
Definition strip_prefix (lora_key : string) : string :=
  if PyStr.startswith "lora_unet_" lora_key then PyStr.drop 10 lora_key else lora_key.

Definition base_key_candidates (base_key : string) : list string :=
  [ base_key;
    PyStr.replace "_" "." base_key;
    "model.diffusion_model." +:+ base_key;
    "model.diffusion_model." +:+ PyStr.replace "_" "." base_key ].

(** The search for [target_key] over the candidates, in order. *)
Fixpoint find_target (merged : gmap string tensor) (candidates : list string)
  : option string :=
  match candidates with
  | [] => None
  | candidate :: rest =>
      if decide (is_Some (merged !! candidate)) then Some candidate
      else if decide (is_Some (merged !! (candidate +:+ ".weight")))
           then Some (candidate +:+ ".weight")
           else find_target merged rest
  end.

Definition resolve_target (merged : gmap string tensor) (lora_key : string)
  : option string :=
  find_target merged (base_key_candidates (strip_prefix lora_key)).

(** [scale = alpha / rank if rank > 0 else 1.0].  The quotient is a
    Python number; its rounding to a double is not modelled. *)
Definition lora_scale (alpha : Qc) (rank : nat) : Qc :=
  if decide (0 < rank) then (alpha / Qc_of_nat rank)%Qc else 1%Qc.

(** The computation of [delta] inside the [try]: [Ok None] is the
    [else: continue] branch, [Raise] an exception of torch. *)
Definition lora_delta (rnd : torch_dtype → Qc → Qc) (up down : tensor)
    (scale strength : Qc) (target : tensor) : result (option tensor) :=
  if decide (length (shape down) = 2 ∧ length (shape up) = 2) then
    p ← Torch.matmul rnd up down;
    Ok (Some (Torch.mul_scalar rnd (Torch.mul_scalar rnd p scale) strength))
  else if decide (length (shape down) = 4 ∧ length (shape up) = 4) then
    c ← Torch.einsum_orhw_rich_oicw rnd up down;
    let delta := Torch.mul_scalar rnd (Torch.mul_scalar rnd c scale) strength in
    if decide (shape delta ≠ shape target) then
      d ← Torch.reshape delta (shape target);
      Ok (Some d)
    else Ok (Some delta)
  else Ok None.

(** The first half of an iteration of the loop over [lora_keys]: the
    factors of the group and its scale.  [Ok None] is one of the two
    [continue]s on a missing key; [Raise] is an exception of
    [down.shape[0]] or [alpha.item()], which are outside the [try] and
    leave the function. *)
Definition read_pair (lora_weights : gmap string tensor) (lora_key : string)
  : result (option (tensor * tensor * Qc)) :=
  match select_keys lora_weights lora_key with
  | None => Ok None
  | Some (down_key, up_key, alpha_key) =>
      match lora_weights !! down_key with
      | None => Ok None
      | Some down =>
          match lora_weights !! up_key with
          | None => Ok None
          | Some up =>
              (* [torch.tensor(down.shape[0])], the default of [.get], is
                 evaluated whether or not the alpha entry is present *)
              rank ← Torch.shape0 down;
              alpha ← match lora_weights !! alpha_key with
                      | Some a => Torch.item a
                      | None => Ok (Qc_of_nat rank)
                      end;
              Ok (Some (down, up, lora_scale alpha rank))
          end
      end
  end.

Section Merge.

(** Rounding of a value to a dtype, applied by every tensor operation. *)
Variable rnd : torch_dtype → Qc → Qc.

(** [t.to(d)]: the tensor itself when it already has dtype [d]. *)
Definition to_ (d : torch_dtype) (t : tensor) : tensor :=
  if decide (dtype t = d) then t
  else {| dtype := d; shape := shape t; data := map (rnd d) (data t) |}.

(** The second half of an iteration, on the loop state
    [(merged, applied)]: resolution of the target, the [try] block and
    the update.  Every way out but the update is a [continue] and
    returns the state as it was. *)
Definition merge_pair (strength : Qc) (lora_key : string) (down up : tensor)
    (scale : Qc) (st : gmap string tensor * nat) : gmap string tensor * nat :=
  let '(merged, applied) := st in
  match resolve_target merged lora_key with
  | None => st
  | Some target_key =>
      match merged !! target_key with
      | None => st (* a [KeyError] inside the [try] *)
      | Some target =>
          match lora_delta rnd up down scale strength target with
          | Raise _ => st (* [except Exception: continue] *)
          | Ok None => st
          | Ok (Some delta) =>
              if decide (shape delta = shape target) then
                (<[target_key := Torch.add rnd (to_ (dtype delta) target) delta]> merged,
                 S applied)
              else st
          end
      end
  end.

(** One iteration of the loop over [lora_keys]. *)
Definition apply_pair (lora_weights : gmap string tensor) (strength : Qc)
    (lora_key : string) (st : gmap string tensor * nat)
  : result (gmap string tensor * nat) :=
  p ← read_pair lora_weights lora_key;
  match p with
  | None => Ok st
  | Some (down, up, scale) => Ok (merge_pair strength lora_key down up scale st)
  end.

(** The loop over the groups, in the order [keys]. *)
Fixpoint apply_pairs (lora_weights : gmap string tensor) (strength : Qc)
    (keys : list string) (st : gmap string tensor * nat)
  : result (gmap string tensor * nat) :=
  match keys with
  | [] => Ok st
  | lora_key :: rest =>
      st' ← apply_pair lora_weights strength lora_key st;
      apply_pairs lora_weights strength rest st'
  end.

Definition applied_line (applied : nat) : string :=
  "    Applied " +:+ PyStr.of_nat applied +:+ " LoRA weight pairs".

Definition apply_lora_to_weights (base_weights lora_weights : gmap string tensor)
    (strength : Qc) : result call_outcome :=
  '(merged, applied) ← apply_pairs lora_weights strength
                          (elements (lora_keys lora_weights)) (base_weights, 0);
  Ok {| returned := merged; printed := [applied_line applied] |}.

(** One adapter of a merge job: the [if os.path.exists(...)] block, on
    the current weights and the console output so far.  [warning] is the
    text printed before the path when the file is missing. *)
Definition apply_lora_file (fs : gmap string file) (warning : string)
    (lora_path : string) (strength : Qc) (st : gmap string tensor * list string)
  : result (gmap string tensor * list string) :=
  let '(base_weights, out) := st in
  if path_exists fs lora_path then
    lora ← load_file fs lora_path;
    o ← apply_lora_to_weights base_weights lora strength;
    Ok (returned o, (out ++ printed o)%list)
  else Ok (base_weights, (out ++ [warning +:+ lora_path])%list).

(** The loop over the common adapters. *)
Fixpoint apply_common_loras (fs : gmap string file) (loras : list (string * Qc))
    (st : gmap string tensor * list string)
  : result (gmap string tensor * list string) :=
  match loras with
  | [] => Ok st
  | (lora_path, strength) :: rest =>
      st' ← apply_lora_file fs "   WARNING: LoRA not found at " lora_path strength st;
      apply_common_loras fs rest st'
  end.

(** The conversion before saving:
    [v.to(torch.bfloat16) if v.dtype == torch.float32 else v]. *)
Definition finalize_tensor (v : tensor) : tensor :=
  if decide (dtype v = float32) then to_ bfloat16 v else v.

Definition finalize (weights : gmap string tensor) : gmap string tensor :=
  finalize_tensor <$> weights.

Definition output_path_of (character_name : string) : string :=
  OUTPUT_DIR +:+ "/" +:+ "qwen_" +:+ character_name +:+ "_merged.safetensors".

(** The weights after every adapter of the job, before the conversion,
    with the console lines about the adapters. *)
Definition merged_weights (fs : gmap string file) (common : list (string * Qc))
    (character_lora_path : string) (character_strength : Qc)
  : result (gmap string tensor * list string) :=
  base_weights ← load_file fs BASE_MODEL;
  st ← apply_lora_file fs "   WARNING: Character LoRA not found at "
         character_lora_path character_strength (base_weights, []);
  apply_common_loras fs common st.

(** [merge_loras_for_character]: the file system after the call, the
    returned output path and the console lines about the adapters. *)
Definition merge_loras_for_character (fs : gmap string file)
    (character_name character_lora_path : string) (character_strength : Qc)
  : result (gmap string file * string * list string) :=
  '(base_weights, out) ← merged_weights fs COMMON_LORAS character_lora_path
                           character_strength;
  let output_path := output_path_of character_name in
  let merged_bf16 := finalize base_weights in
  Ok (save_file merged_bf16 output_path fs, output_path, out).

(** The loop of [main] over the characters, on the file system and the
    list [created_models]: an exception of a merge is caught, and the loop
    goes on with the next character. *)
Fixpoint main_loop (characters : list (string * (string * Qc)))
    (st : gmap string file * list (string * string))
  : gmap string file * list (string * string) :=
  match characters with
  | [] => st
  | (char_name, (lora_path, strength)) :: rest =>
      let '(fs, created_models) := st in
      match merge_loras_for_character fs char_name lora_path strength with
      | Ok (fs', output, _) =>
          main_loop rest (fs', (created_models ++ [(char_name, output)])%list)
      | Raise _ => main_loop rest (fs, created_models)
      end
  end.

(** [main]: the exit code, the file system after the run and the list
    [created_models].  The base model exists under [OUTPUT_DIR], so
    [os.makedirs(OUTPUT_DIR, exist_ok=True)] changes nothing.  The console
    output of [main] is left out. *)
Definition main (fs : gmap string file)
  : nat * gmap string file * list (string * string) :=
  if path_exists fs BASE_MODEL then
    let '(fs', created_models) := main_loop CHARACTER_LORAS (fs, []) in
    (0, fs', created_models)
  else (1, fs, []).

End Merge.

(** ** Statements of the specification, and notions used by the proofs *)

(** The identifier of a group without the prefix ["lora_unet_"] of the
    naming convention, when it has it. *)
Definition stripped_identifier (lora_key : string) : string :=
  if String.prefix "lora_unet_" lora_key
  then String.substring 10 (String.length lora_key - 10) lora_key
  else lora_key.

(** A string with each of its underscores turned into a dot. *)
Fixpoint underscores_to_dots (s : string) : string :=
  match s with
  | EmptyString => EmptyString
  | String c s' =>
      String (if Ascii.eqb c "_" then "."%char else c) (underscores_to_dots s')
  end.

(** Key resolution as the specification words it: the first name present
    in the base among the candidates (the stripped identifier, the
    identifier with underscores translated to dots, and the two behind the
    namespace prefix), each one tried as it is and then with the suffix
    [".weight"]. *)
Definition resolve_by_first_match (merged : gmap string tensor) (lora_key : string)
  : option string :=
  let b := stripped_identifier lora_key in
  let b' := underscores_to_dots b in
  head (filter (λ k, is_Some (merged !! k))
          [ b; b +:+ ".weight";
            b'; b' +:+ ".weight";
            "model.diffusion_model." +:+ b; ("model.diffusion_model." +:+ b) +:+ ".weight";
            "model.diffusion_model." +:+ b'; ("model.diffusion_model." +:+ b') +:+ ".weight" ]).

(** An adapter set all of whose pairs are linear layers: both factors of
    every group the loop reads are 2-dimensional. *)
Definition linear_only (lora_weights : gmap string tensor) : bool :=
  forallb (λ lora_key,
             match read_pair lora_weights lora_key with
             | Ok (Some (down, up, _)) =>
                 bool_decide (length (shape down) = 2 ∧ length (shape up) = 2)
             | _ => true
             end)
          (elements (lora_keys lora_weights)).

(** The delta of a pair before the multiplication by the strength. *)
Definition delta_core (rnd : torch_dtype → Qc → Qc) (up down : tensor)
    (scale : Qc) (target_shape : list nat) : result (option tensor) :=
  if decide (length (shape down) = 2 ∧ length (shape up) = 2) then
    p ← Torch.matmul rnd up down;
    Ok (Some (Torch.mul_scalar rnd p scale))
  else if decide (length (shape down) = 4 ∧ length (shape up) = 4) then
    c ← Torch.einsum_orhw_rich_oicw rnd up down;
    let delta := Torch.mul_scalar rnd c scale in
    if decide (shape delta ≠ target_shape) then
      d ← Torch.reshape delta target_shape;
      Ok (Some d)
    else Ok (Some delta)
  else Ok None.

(** What a pair does to a working copy in which the names carry the shapes
    [shapes]: the target it updates and the delta, before the strength, it
    adds there; [None] when the pair is skipped. *)
Definition pair_effect (rnd : torch_dtype → Qc → Qc)
    (shapes : gmap string (list nat)) (target_key : option string)
    (down up : tensor) (scale : Qc) : option (string * tensor) :=
  match target_key with
  | None => None
  | Some k =>
      match shapes !! k with
      | None => None
      | Some sh =>
          match delta_core rnd up down scale sh with
          | Ok (Some d) => if decide (shape d = sh) then Some (k, d) else None
          | _ => None
          end
      end
  end.

(** The pairs of the groups [keys], in order, or the exception the first
    unreadable one raises. *)
Fixpoint read_pairs (lora_weights : gmap string tensor) (keys : list string)
  : result (list (string * (tensor * tensor * Qc))) :=
  match keys with
  | [] => Ok []
  | lora_key :: rest =>
      p ← read_pair lora_weights lora_key;
      ps ← read_pairs lora_weights rest;
      Ok (match p with
          | Some pr => (lora_key, pr) :: ps
          | None => ps
          end)
  end.

(** A tensor that holds as many elements as its shape says. *)
Definition tensor_wf (t : tensor) : Prop := length (data t) = numel (shape t).

(** An adapter set in which every alpha entry holds one element and every
    down factor has at least one dimension. *)
Definition adapter_wf (lora_weights : gmap string tensor) : Prop :=
  map_Forall (λ key t,
      (PyStr.endswith ".alpha" key = true → numel (shape t) = 1)
      ∧ (PyStr.endswith ".lora_down.weight" key = true
         ∨ PyStr.endswith ".lora_A.weight" key = true → shape t ≠ []))
    lora_weights.

(** The loop over pairs that were read. *)
Definition merge_pairs (rnd : torch_dtype → Qc → Qc) (strength : Qc)
    (ps : list (string * (tensor * tensor * Qc))) (st : gmap string tensor * nat)
  : gmap string tensor * nat :=
  foldl (λ st p, merge_pair rnd strength p.1 p.2.1.1 p.2.1.2 p.2.2 st) st ps.

(** The update of a target by a delta [d] given before the strength. *)
Definition update_by (rnd : torch_dtype → Qc → Qc) (strength : Qc) (d x : tensor)
  : tensor :=
  Torch.add rnd (to_ rnd (dtype d) x) (Torch.mul_scalar rnd d strength).

(** The deltas, before the strength, that the pairs [ps] add to the name
    [k] of a working copy with the names and shapes of [m]. *)
Definition deltas_at (rnd : torch_dtype → Qc → Qc) (m : gmap string tensor)
    (k : string) (ps : list (string * (tensor * tensor * Qc))) : list tensor :=
  omap (λ p, match pair_effect rnd (shape <$> m) (resolve_target m p.1)
                     p.2.1.1 p.2.1.2 p.2.2 with
             | Some (k', d) => if decide (k' = k) then Some d else None
             | None => None
             end) ps.

(** Sum of the elements at index [i] of the tensors [ds]. *)
Definition sum_at (ds : list tensor) (i : nat) : Qc :=
  foldr (λ d acc, (at_ d i + acc)%Qc) 0%Qc ds.


(** A conversion that rounds nothing: exact arithmetic. *)
Definition exact : torch_dtype → Qc → Qc := λ _ x, x.

(** ** Sample weight sets *)

Module Examples.

Definition q (z : Z) : Qc := Qc_of_Z z.

(** A base with one 2x2 matrix. *)
Definition base_l : gmap string tensor :=
  {[ "layer.weight" := Tensor float32 [2; 2] [q 10; q 20; q 30; q 40] ]}.

(** Other values under the same name. *)
Definition base_l' : gmap string tensor :=
  {[ "layer.weight" := Tensor bfloat16 [2; 2] [q 0; q 0; q 0; q 1] ]}.

Definition target_l : tensor := Tensor float32 [2; 2] [q 10; q 20; q 30; q 40].

(** A rank-1 adapter for it, with alpha 2. *)
Definition down_l : tensor := Tensor float32 [1; 2] [q 1; q 2].
Definition up_l : tensor := Tensor float32 [2; 1] [q 3; q 4].

Definition lora_l : gmap string tensor :=
  list_to_map
    [ ("lora_unet_layer.lora_down.weight", down_l);
      ("lora_unet_layer.lora_up.weight", up_l);
      ("lora_unet_layer.alpha", Tensor float32 [] [q 2]) ].

(** The same adapter with the down factor stored in another precision. *)
Definition lora_mixed : gmap string tensor :=
  list_to_map
    [ ("lora_unet_layer.lora_down.weight", Tensor bfloat16 [1; 2] [q 1; q 2]);
      ("lora_unet_layer.lora_up.weight", Tensor float32 [2; 1] [q 3; q 4]);
      ("lora_unet_layer.alpha", Tensor float32 [] [q 2]) ].

(** A group with a down factor and no up factor. *)
Definition lora_no_up : gmap string tensor :=
  {[ "lora_unet_layer.lora_down.weight" := Tensor float32 [1; 2] [q 1; q 2] ]}.

(** A group whose name resolves to nothing in [base_l]. *)
Definition lora_other : gmap string tensor :=
  list_to_map
    [ ("lora_unet_other.lora_down.weight", Tensor float32 [1; 2] [q 1; q 2]);
      ("lora_unet_other.lora_up.weight", Tensor float32 [2; 1] [q 3; q 4]) ].

(** A convolution kernel of width 2 and a rank-1 adapter for it, in the
    layout [down: [rank, in_ch, kh, kw]], [up: [out_ch, rank, 1, 1]]. *)
Definition base_c : gmap string tensor :=
  {[ "conv.weight" := Tensor float32 [1; 1; 1; 2] [q 0; q 0] ]}.

Definition down_c : tensor := Tensor float32 [1; 1; 1; 2] [q 1; q 2].
Definition up_c : tensor := Tensor float32 [1; 1; 1; 1] [q 1].

Definition lora_c : gmap string tensor :=
  list_to_map [ ("conv.lora_down.weight", down_c); ("conv.lora_up.weight", up_c) ].

Definition ava_path : string := "models/loras/vixxxen-prefabs/Ava_QWEN_v1.safetensors".

(** A file system with the base model and one character adapter; the
    common adapters are missing. *)
Definition fs_l : gmap string file :=
  list_to_map [ (BASE_MODEL, Safetensors base_l); (ava_path, Safetensors lora_l) ].

Definition lightning_path : string :=
  "models/loras/Qwen-Image-Lightning-4steps-V2.0.safetensors".

(** What the call on [base_l] and [lora_l] with strength 1 hands back. *)
Definition outcome_l : call_outcome :=
  match apply_lora_to_weights exact base_l lora_l 1%Qc with
  | Ok o => o
  | Raise _ => {| returned := ∅; printed := [] |}
  end.

(** The weights and the output of the merge job on [fs_l]. *)
Definition job_l : gmap string tensor * list string :=
  match merged_weights exact fs_l COMMON_LORAS ava_path 1%Qc with
  | Ok st => st
  | Raise _ => (∅, [])
  end.

(** [base_l] with a second tensor, which no group of [lora_l] targets. *)
Definition base_2 : gmap string tensor :=
  list_to_map [ ("layer.weight", target_l);
                ("other.weight", Tensor float32 [1] [q 5]) ].

Definition outcome_2 : call_outcome :=
  match apply_lora_to_weights exact base_2 lora_l 1%Qc with
  | Ok o => o
  | Raise _ => {| returned := ∅; printed := [] |}
  end.

(** [lora_l] with an alpha entry of two elements. *)
Definition lora_bad_alpha : gmap string tensor :=
  list_to_map
    [ ("lora_unet_layer.lora_down.weight", down_l);
      ("lora_unet_layer.lora_up.weight", up_l);
      ("lora_unet_layer.alpha", Tensor float32 [2] [q 2; q 2]) ].

(** The call on [base_l] and [lora_l] with strength 0. *)
Definition outcome_zero : call_outcome :=
  match apply_lora_to_weights exact base_l lora_l 0%Qc with
  | Ok o => o
  | Raise _ => {| returned := ∅; printed := [] |}
  end.

(** A rank-1 pair for a kernel of height 2 and width 1. *)
Definition up_p : tensor := Tensor float32 [1; 1; 1; 1] [q 3].
Definition down_p : tensor := Tensor float32 [1; 1; 2; 1] [q 1; q 2].
Definition target_p : tensor := Tensor float32 [1; 1; 2; 1] [q 0; q 0].

(** An up factor and an alpha without their down factor. *)
Definition lora_up_only : gmap string tensor :=
  list_to_map
    [ ("lora_unet_layer.lora_up.weight", up_l);
      ("lora_unet_layer.alpha", Tensor float32 [] [q 2]) ].

(** [fs_l] with a character adapter that does not load. *)
Definition fs_bad : gmap string file :=
  list_to_map [ (BASE_MODEL, Safetensors base_l); (ava_path, Unreadable) ].

(** What the merge job for ["ava"] on [fs_l] returns. *)
Definition merge_l : gmap string file * string * list string :=
  match merge_loras_for_character exact fs_l "ava" ava_path 1%Qc with
  | Ok r => r
  | Raise _ => (∅, "", [])
  end.

(** A second adapter for ["layer.weight"], in the other convention and
    another precision. *)
Definition lora_m : gmap string tensor :=
  list_to_map
    [ ("layer.lora_A.weight", Tensor bfloat16 [1; 2] [q 1; q 1]);
      ("layer.lora_B.weight", Tensor bfloat16 [2; 1] [q 1; q 2]) ].

Definition after (base lora_weights : gmap string tensor) (strength : Qc)
  : call_outcome :=
  match apply_lora_to_weights exact base lora_weights strength with
  | Ok o => o
  | Raise _ => {| returned := ∅; printed := [] |}
  end.

(** A rounding in the manner of floating formats, coarser for the
    narrow dtype and for large values: [bfloat16] holds the multiples of
    [1/2] below 2 and the integers from 2 on, and a value is rounded down
    to the next one it holds; the other dtypes hold every value. *)
Definition coarse (d : torch_dtype) (x : Qc) : Qc :=
  match d with
  | bfloat16 =>
      if Qle_bool 2 x then Qc_of_Z (Qfloor x) else Q2Qc (Qfloor (2 * x) # 2)
  | _ => x
  end.

(** A [float32] base with elements that [bfloat16] does not hold, and a
    rank-1 [bfloat16] adapter for it, without alpha, whose product is
    [[-1 -1; 1/2 1/2]]. *)
Definition target_h : tensor :=
  Tensor float32 [2; 2] [Q2Qc (5 # 2); Q2Qc (5 # 2); Q2Qc (5 # 2); Q2Qc (5 # 2)].

Definition base_h : gmap string tensor := {[ "layer.weight" := target_h ]}.

Definition lora_h : gmap string tensor :=
  list_to_map
    [ ("lora_unet_layer.lora_down.weight", Tensor bfloat16 [1; 2] [q 1; q 1]);
      ("lora_unet_layer.lora_up.weight", Tensor bfloat16 [2; 1] [q (-1); Q2Qc (1 # 2)]) ].

(** The loop state after the iteration for the group of [lora_h] on
    [base_h], under [coarse]. *)
Definition pair_h : gmap string tensor * nat :=
  match apply_pair coarse lora_h 1%Qc "lora_unet_layer" (base_h, 0) with
  | Ok st => st
  | Raise _ => (∅, 0)
  end.

(** A [bfloat16] base, and the loop state after the iteration for the
    group of the [float32] adapter [lora_l] on it, under [coarse]. *)
Definition base_b : gmap string tensor :=
  {[ "layer.weight" := Tensor bfloat16 [2; 2] [Q2Qc (1 # 2); q 1; q 2; q 3] ]}.

Definition pair_b : gmap string tensor * nat :=
  match apply_pair coarse lora_l 1%Qc "lora_unet_layer" (base_b, 0) with
  | Ok st => st
  | Raise _ => (∅, 0)
  end.

(** A base whose name is the identifier of the group of [lora_d] with
    dots for underscores, and the suffix [".weight"]. *)
Definition base_d : gmap string tensor := {[ "blocks.0.attn.weight" := target_l ]}.

Definition base_d' : gmap string tensor := {[ "blocks.0.attn.weight" := target_h ]}.

Definition lora_d : gmap string tensor :=
  list_to_map
    [ ("lora_unet_blocks_0_attn.lora_down.weight", down_l);
      ("lora_unet_blocks_0_attn.lora_up.weight", up_l) ].

(** The two adapters [lora_l] and [lora_m] in one set: two groups with
    the target ["layer.weight"]. *)
Definition lora_two : gmap string tensor :=
  list_to_map
    [ ("lora_unet_layer.lora_down.weight", down_l);
      ("lora_unet_layer.lora_up.weight", up_l);
      ("lora_unet_layer.alpha", Tensor float32 [] [q 2]);
      ("layer.lora_A.weight", Tensor bfloat16 [1; 2] [q 1; q 1]);
      ("layer.lora_B.weight", Tensor bfloat16 [2; 1] [q 1; q 2]) ].

End Examples.

(** * Properties *)

Section Properties.

Variable rnd : torch_dtype → Qc → Qc.

(** ** Conversions, sums and scalar multiples of tensors *)

Lemma shape_to_ d t : shape (to_ rnd d t) = shape t.
Proof. unfold to_. by case_decide. Qed.

Lemma dtype_to_ d t : dtype (to_ rnd d t) = d.
Proof. unfold to_. by case_decide. Qed.

Lemma promote_types_same d : Torch.promote_types d d = d.
Proof. by destruct d. Qed.

Lemma dtype_add_to target delta :
  dtype (Torch.add rnd (to_ rnd (dtype delta) target) delta) = dtype delta.
Proof. simpl. by rewrite dtype_to_, promote_types_same. Qed.

Lemma shape_add_to target delta :
  shape (Torch.add rnd (to_ rnd (dtype delta) target) delta) = shape target.
Proof. simpl. apply shape_to_. Qed.

Lemma nth_tabulate n f i : i < n → nth i (tabulate n f) 0%Qc = f i.
Proof.
  intros Hi. unfold tabulate. rewrite nth_lookup, list_lookup_fmap.
  by rewrite lookup_seq_lt.
Qed.

Lemma tabulate_ext n f g : (∀ i, i < n → f i = g i) → tabulate n f = tabulate n g.
Proof.
  intros H. unfold tabulate. apply map_ext_in. intros i Hi%in_seq. apply H. lia.
Qed.

Lemma at_mul_scalar d c i :
  (∀ d' q, rnd d' q = q) →
  at_ (Torch.mul_scalar rnd d c) i = (at_ d i * c)%Qc.
Proof.
  intros Hexact. unfold at_. simpl. rewrite !nth_lookup, list_lookup_fmap.
  destruct (data d !! i); simpl; [apply Hexact|ring].
Qed.

Lemma at_to_exact d t i :
  (∀ d' q, rnd d' q = q) → at_ (to_ rnd d t) i = at_ t i.
Proof.
  intros Hexact. unfold to_. case_decide; [done|]. unfold at_. simpl.
  f_equal. rewrite <-(map_id (data t)) at 2. apply map_ext. auto.
Qed.

(** ** The loop keeps the names and the shapes of the working copy *)

Lemma merge_pair_shapes strength lora_key down up scale st :
  shape <$> (merge_pair rnd strength lora_key down up scale st).1 = shape <$> st.1.
Proof.
  destruct st as [merged applied]. unfold merge_pair.
  destruct (resolve_target merged lora_key) as [target_key|]; [|done].
  destruct (merged !! target_key) as [target|] eqn:Htarget; [|done].
  destruct (lora_delta rnd up down scale strength target) as [[delta|]|]; [|done..].
  case_decide; [|done]. simpl.
  rewrite fmap_insert, shape_add_to.
  apply insert_id. by rewrite lookup_fmap, Htarget.
Qed.

Lemma merge_pairs_shapes strength ps st :
  shape <$> (merge_pairs rnd strength ps st).1 = shape <$> st.1.
Proof.
  revert st. induction ps as [|p ps IH]; intros st; [done|].
  unfold merge_pairs in *. simpl. rewrite IH. apply merge_pair_shapes.
Qed.

Lemma same_shapes_same_dom (m1 m2 : gmap string tensor) :
  shape <$> m1 = shape <$> m2 → dom m1 = dom m2.
Proof. intros H. by rewrite <-(dom_fmap_L shape m1), H, dom_fmap_L. Qed.

(** ** The loop as reading the pairs, then merging them *)

Lemma apply_pairs_read_merge lora_weights strength keys st :
  apply_pairs rnd lora_weights strength keys st
  = ps ← read_pairs lora_weights keys; Ok (merge_pairs rnd strength ps st).
Proof.
  revert st. induction keys as [|lora_key rest IH]; intros st; [done|].
  simpl. unfold apply_pair.
  destruct (read_pair lora_weights lora_key) as [[[[down up] scale]|]|]; simpl; [| |done].
  - rewrite IH. by destruct (read_pairs lora_weights rest).
  - rewrite IH. by destruct (read_pairs lora_weights rest).
Qed.

Lemma apply_pairs_shapes lora_weights strength keys st st' :
  apply_pairs rnd lora_weights strength keys st = Ok st' →
  shape <$> st'.1 = shape <$> st.1.
Proof.
  rewrite apply_pairs_read_merge.
  destruct (read_pairs lora_weights keys) as [ps|]; simpl; [|done].
  intros [= <-]. apply merge_pairs_shapes.
Qed.

(** ** Resolution looks at the names of the working copy only *)

Lemma find_target_dom (m1 m2 : gmap string tensor) candidates :
  dom m1 = dom m2 → find_target m1 candidates = find_target m2 candidates.
Proof.
  intros Hdom.
  assert (∀ k, is_Some (m1 !! k) ↔ is_Some (m2 !! k)) as Hsome.
  { intros k. by rewrite <-!elem_of_dom, Hdom. }
  induction candidates as [|c rest IH]; [done|]. simpl.
  repeat case_decide; try done;
    repeat match goal with
           | H : is_Some (m1 !! _) |- _ => apply Hsome in H
           | H : ¬ is_Some (m1 !! _) |- _ => rewrite Hsome in H
           end; done.
Qed.

Lemma find_target_is_Some (m : gmap string tensor) candidates k :
  find_target m candidates = Some k → is_Some (m !! k).
Proof.
  induction candidates as [|c rest IH]; [done|]. simpl.
  repeat case_decide; naive_solver.
Qed.

Lemma find_target_first_match (m : gmap string tensor) candidates :
  find_target m candidates
  = head (filter (λ k, is_Some (m !! k))
            (flat_map (λ c, [c; c +:+ ".weight"]) candidates)).
Proof.
  induction candidates as [|c rest IH]; [done|].
  cbn [find_target flat_map app]. rewrite !filter_cons.
  by repeat case_decide.
Qed.

(** ** The strength multiplies a delta that does not depend on it *)

Lemma lora_delta_core up down scale strength target :
  lora_delta rnd up down scale strength target
  = match delta_core rnd up down scale (shape target) with
    | Ok (Some d) => Ok (Some (Torch.mul_scalar rnd d strength))
    | Ok None => Ok None
    | Raise e => Raise e
    end.
Proof.
  unfold lora_delta, delta_core.
  case_decide.
  { by destruct (Torch.matmul rnd up down). }
  case_decide; [|done].
  destruct (Torch.einsum_orhw_rich_oicw rnd up down) as [c|]; simpl; [|done].
  case_decide; [|done].
  unfold Torch.reshape. simpl. by case_decide.
Qed.

Lemma merge_pair_effect strength lora_key down up scale merged applied :
  merge_pair rnd strength lora_key down up scale (merged, applied)
  = match pair_effect rnd (shape <$> merged) (resolve_target merged lora_key)
            down up scale with
    | Some (k, d) =>
        match merged !! k with
        | Some target => (<[k := update_by rnd strength d target]> merged, S applied)
        | None => (merged, applied)
        end
    | None => (merged, applied)
    end.
Proof.
  unfold merge_pair, pair_effect.
  destruct (resolve_target merged lora_key) as [k|]; [|done].
  rewrite lookup_fmap.
  destruct (merged !! k) as [target|] eqn:Htarget; simpl; [|done].
  rewrite lora_delta_core.
  destruct (delta_core rnd up down scale (shape target)) as [[d|]|]; [|done..].
  simpl. case_decide; [|done]. by rewrite Htarget.
Qed.

Lemma deltas_at_cons (m : gmap string tensor) k p ps :
  deltas_at rnd m k (p :: ps)
  = match pair_effect rnd (shape <$> m) (resolve_target m p.1) p.2.1.1 p.2.1.2 p.2.2 with
    | Some (k', d) =>
        if decide (k' = k) then d :: deltas_at rnd m k ps else deltas_at rnd m k ps
    | None => deltas_at rnd m k ps
    end.
Proof.
  unfold deltas_at. simpl.
  destruct (pair_effect rnd _ _ _ _ _) as [[k' d]|]; [|done]. by case_decide.
Qed.

Lemma deltas_at_shapes (m1 m2 : gmap string tensor) k ps :
  shape <$> m1 = shape <$> m2 → deltas_at rnd m1 k ps = deltas_at rnd m2 k ps.
Proof.
  intros Hshapes.
  induction ps as [|p ps IH]; [done|]. rewrite !deltas_at_cons, IH.
  unfold resolve_target.
  by rewrite (find_target_dom m1 m2), Hshapes by by apply same_shapes_same_dom.
Qed.

(** The tensor under a name after the loop: the deltas of the pairs that
    resolve to it, added one after the other. *)
Lemma merge_pairs_lookup strength ps st k :
  (merge_pairs rnd strength ps st).1 !! k
  = (λ x, foldl (λ x d, update_by rnd strength d x) x (deltas_at rnd st.1 k ps))
      <$> st.1 !! k.
Proof.
  revert st. induction ps as [|[g [[down up] scale]] ps IH]; intros [m n].
  { simpl. by destruct (m !! k). }
  unfold merge_pairs in *. cbn [foldl]. rewrite IH. clear IH.
  rewrite (deltas_at_shapes _ m) by apply merge_pair_shapes.
  rewrite deltas_at_cons. cbn [fst snd].
  rewrite merge_pair_effect.
  destruct (pair_effect rnd (shape <$> m) (resolve_target m g) down up scale)
    as [[k' d]|]; [|done].
  destruct (m !! k') as [target|] eqn:Htarget; cbn [fst].
  - case_decide as Hk; subst.
    + by rewrite lookup_insert_eq, Htarget.
    + by rewrite lookup_insert_ne.
  - case_decide as Hk; subst; [|done]. by rewrite Htarget.
Qed.

(** ** Repeated updates of one tensor, in exact arithmetic *)

Section Exact.

Hypothesis rnd_exact : ∀ d q, rnd d q = q.

Lemma at_update_by strength d x i :
  i < numel (shape x) →
  at_ (update_by rnd strength d x) i = (at_ x i + at_ d i * strength)%Qc.
Proof.
  intros Hi. unfold update_by, Torch.add, at_ at 1. simpl.
  rewrite shape_to_, nth_tabulate by done.
  by rewrite rnd_exact, at_to_exact, at_mul_scalar.
Qed.

Lemma last_cons_default (d0 d1 : tensor) ds :
  List.last (d1 :: ds) d0 = List.last ds d1.
Proof.
  revert d0 d1. induction ds as [|d2 ds IH]; intros d0 d1; [done|].
  change (List.last (d1 :: d2 :: ds) d0) with (List.last (d2 :: ds) d0).
  by rewrite !IH.
Qed.

(** The sum of a tensor and of a non-empty series of deltas, in closed
    form: the dtype is the one of the last delta. *)
Lemma foldl_update_by strength d0 ds x :
  foldl (λ x d, update_by rnd strength d x) x (d0 :: ds)
  = {| dtype := dtype (List.last ds d0);
       shape := shape x;
       data := tabulate (numel (shape x))
                 (λ i, (at_ x i + sum_at (d0 :: ds) i * strength)%Qc) |}.
Proof.
  revert x d0. induction ds as [|d1 ds IH]; intros x d0.
  - simpl. unfold update_by, Torch.add. f_equal.
    + simpl. by rewrite dtype_to_, promote_types_same.
    + apply shape_to_.
    + rewrite shape_to_. apply tabulate_ext. intros i _.
      rewrite rnd_exact, at_to_exact, at_mul_scalar by done. ring.
  - cbn [foldl]. cbn [foldl] in IH. rewrite IH. f_equal.
    + by rewrite last_cons_default.
    + apply shape_to_.
    + unfold update_by at 1. simpl shape. rewrite shape_to_.
      apply tabulate_ext. intros i Hi.
      rewrite at_update_by by done.
      unfold sum_at. simpl. ring.
Qed.

Lemma double_update s1 s2 ds x :
  foldl (λ x d, update_by rnd s2 d x)
        (foldl (λ x d, update_by rnd s1 d x) x ds) ds
  = foldl (λ x d, update_by rnd (s1 + s2)%Qc d x) x ds.
Proof.
  destruct ds as [|d0 ds]; [done|].
  rewrite !foldl_update_by. simpl shape. f_equal.
  apply tabulate_ext. intros i Hi.
  unfold at_ at 1. cbn [data]. rewrite nth_tabulate by done. ring.
Qed.

Lemma merge_pairs_twice s1 s2 ps base n1 n2 n :
  (merge_pairs rnd s2 ps ((merge_pairs rnd s1 ps (base, n1)).1, n2)).1
  = (merge_pairs rnd (s1 + s2)%Qc ps (base, n)).1.
Proof.
  apply map_eq. intros k. rewrite !merge_pairs_lookup. cbn [fst].
  rewrite merge_pairs_lookup. cbn [fst].
  rewrite (deltas_at_shapes _ base) by apply merge_pairs_shapes.
  destruct (base !! k) as [x|]; [|done]. simpl. f_equal. apply double_update.
Qed.

(** Applying an adapter with strength [s1] and then with strength [s2]
    gives the weights of one application with strength [s1 + s2], for
    pairs of any supported dimension. *)
Lemma double_application base lora_weights s1 s2 :
  returned <$> (o ← apply_lora_to_weights rnd base lora_weights s1;
                apply_lora_to_weights rnd (returned o) lora_weights s2)
  = returned <$> apply_lora_to_weights rnd base lora_weights (s1 + s2)%Qc.
Proof.
  unfold apply_lora_to_weights. rewrite !apply_pairs_read_merge.
  destruct (read_pairs lora_weights (elements (lora_keys lora_weights)))
    as [ps|] eqn:Hread; [|done].
  simpl.
  pose proof (merge_pairs_twice s1 s2 ps base 0 0 0) as Htwice.
  destruct (merge_pairs rnd s1 ps (base, 0)) as [m1 n1].
  simpl. rewrite apply_pairs_read_merge, Hread. simpl.
  cbn [fst] in Htwice.
  destruct (merge_pairs rnd s2 ps (m1, 0)) as [m2 n2].
  destruct (merge_pairs rnd (s1 + s2)%Qc ps (base, 0)) as [m n].
  simpl in *. by subst.
Qed.

End Exact.

(** C6: in exact arithmetic (conversions round nothing), for an adapter
    set all of whose pairs are linear layers, applying it with strength
    [s1] and then, to the result, with strength [s2] yields the weight set
    that one application with strength [s1 + s2] yields; when one side
    raises, so does the other. *)
Theorem double_application_adds_strengths base lora_weights s1 s2 :
  (∀ d q, rnd d q = q) →
  linear_only lora_weights = true →
  returned <$> (o ← apply_lora_to_weights rnd base lora_weights s1;
                apply_lora_to_weights rnd (returned o) lora_weights s2)
  = returned <$> apply_lora_to_weights rnd base lora_weights (s1 + s2)%Qc.
Proof. intros Hexact _. by apply double_application. Qed.

Lemma apply_lora_to_weights_shapes base lora_weights strength o :
  apply_lora_to_weights rnd base lora_weights strength = Ok o →
  shape <$> returned o = shape <$> base.
Proof.
  unfold apply_lora_to_weights.
  destruct (apply_pairs rnd lora_weights strength _ (base, 0)) as [[m n]|] eqn:Hloop;
    simpl; [|done].
  intros [= <-]. by apply apply_pairs_shapes in Hloop.
Qed.

Lemma apply_lora_file_shapes fs warning lora_path strength st st' :
  apply_lora_file rnd fs warning lora_path strength st = Ok st' →
  shape <$> st'.1 = shape <$> st.1.
Proof.
  destruct st as [w out]. unfold apply_lora_file.
  destruct (path_exists fs lora_path); [|by intros [= <-]].
  destruct (load_file fs lora_path) as [lora|]; simpl; [|done].
  destruct (apply_lora_to_weights rnd w lora strength) as [o|] eqn:Happly; simpl; [|done].
  intros [= <-]. by apply apply_lora_to_weights_shapes in Happly.
Qed.

Lemma apply_common_loras_shapes fs loras st st' :
  apply_common_loras rnd fs loras st = Ok st' →
  shape <$> st'.1 = shape <$> st.1.
Proof.
  revert st. induction loras as [|[lora_path strength] rest IH]; intros st; simpl.
  - by intros [= <-].
  - destruct (apply_lora_file rnd fs _ lora_path strength st) as [st1|] eqn:Hfile;
      simpl; [|done].
    intros Hrest. rewrite (IH _ Hrest). by eapply apply_lora_file_shapes.
Qed.

Lemma merged_weights_unfold fs common character_lora_path character_strength :
  merged_weights rnd fs common character_lora_path character_strength
  = match load_file fs BASE_MODEL with
    | Ok base =>
        match apply_lora_file rnd fs "   WARNING: Character LoRA not found at "
                character_lora_path character_strength (base, []) with
        | Ok st => apply_common_loras rnd fs common st
        | Raise e => Raise e
        end
    | Raise e => Raise e
    end.
Proof. done. Qed.

(** ** The delta of a pair *)

Lemma matmul_entries up down o r i :
  shape up = [o; r] → shape down = [r; i] → dtype up = dtype down →
  ∃ p, Torch.matmul rnd up down = Ok p
       ∧ shape p = [o; i]
       ∧ dtype p = dtype up
       ∧ ∀ a b, a < o → b < i →
           at_ p (a * i + b)
           = rnd (dtype up)
               (sum_upto r (λ l, (at_ up (a * r + l) * at_ down (l * i + b))%Qc)).
Proof.
  intros Hup Hdown Hdtype. unfold Torch.matmul. rewrite Hup, Hdown.
  rewrite decide_True by done. eexists. split_and!; try done.
  intros a b Ha Hb. unfold at_ at 1. cbn [data].
  rewrite nth_tabulate by nia.
  rewrite Nat.div_add_l, Nat.div_small, Nat.add_0_r by lia.
  by rewrite Nat.add_comm, Nat.Div0.mod_add, Nat.mod_small by lia.
Qed.

(** The contraction the source calls on a pair in the layout its comment
    gives yields a kernel of width 1, whatever the width of [down]. *)
Lemma einsum_documented_layout up down o r i kh kw :
  shape up = [o; r; 1; 1] → shape down = [r; i; kh; kw] → dtype up = dtype down →
  ∃ c, Torch.einsum_orhw_rich_oicw rnd up down = Ok c ∧ shape c = [o; i; kh; 1].
Proof.
  intros Hup Hdown Hdtype. unfold Torch.einsum_orhw_rich_oicw, Torch.bcast.
  rewrite Hup, Hdown. rewrite (decide_True (P := r = r)) by done.
  destruct (decide (1 = kw)); [|rewrite (decide_True (P := 1 = 1)) by done];
    (rewrite decide_True by (by left)); by eexists.
Qed.

Lemma einsum_layout_shape up down o r i kh kw c :
  shape up = [o; r; 1; 1] → shape down = [r; i; kh; kw] →
  Torch.einsum_orhw_rich_oicw rnd up down = Ok c → shape c = [o; i; kh; 1].
Proof.
  intros Hup Hdown. unfold Torch.einsum_orhw_rich_oicw. rewrite Hup, Hdown.
  destruct (Torch.bcast r r), (Torch.bcast 1 kw); try done.
  case_decide; [|done]. by intros [= <-].
Qed.

(** Hence a pair in that layout for a kernel wider than 1 never reaches
    the update: the contraction, or the reshape of its result to the shape
    of the target, raises. *)
Lemma conv_pair_wide_kernel_raises up down scale strength target o r i kh kw :
  shape up = [o; r; 1; 1] → shape down = [r; i; kh; kw] →
  shape target = [o; i; kh; kw] → kw ≠ 1 → numel (shape target) ≠ 0 →
  ∃ e, lora_delta rnd up down scale strength target = Raise e.
Proof.
  intros Hup Hdown Htarget Hkw Hnumel. unfold lora_delta.
  rewrite decide_False by (rewrite Hdown; by intros [? _]).
  rewrite decide_True by (by rewrite Hdown, Hup).
  destruct (Torch.einsum_orhw_rich_oicw rnd up down) as [c|e] eqn:Heinsum;
    [|by eexists].
  pose proof (einsum_layout_shape up down o r i kh kw c Hup Hdown Heinsum) as Hc.
  simpl. rewrite decide_True by (rewrite Hc, Htarget; congruence).
  unfold Torch.reshape. simpl. rewrite decide_False; [by eexists|].
  rewrite Hc. rewrite Htarget in *. simpl in *. nia.
Qed.

(** C1: on a rank-1 adapter for a 1x1x1x2 kernel, laid out as the source
    documents, the contraction sums the two elements of [down] into a
    1x1x1x1 tensor (holding their sum 3, as float32 holds it); its reshape
    to the shape of the target raises, and the call leaves the kernel as
    it was, with no pair applied. *)
Theorem conv_pair_of_width_two_is_skipped :
  match Torch.einsum_orhw_rich_oicw rnd Examples.up_c Examples.down_c with
  | Ok c => shape c = [1; 1; 1; 1] ∧ at_ c 0 = rnd float32 (Examples.q 3)
  | Raise _ => False
  end
  ∧ apply_lora_to_weights rnd Examples.base_c Examples.lora_c 1%Qc
    = Ok {| returned := Examples.base_c; printed := ["    Applied 0 LoRA weight pairs"] |}.
Proof.
  split.
  - vm_compute. split; [done|]. f_equal. by apply Qc_is_canon.
  - by vm_compute.
Qed.

(** C2: for a group of the adapter set whose factors are matrices, [down]
    of shape [[r; i]] and [up] of shape [[o; r]], whose alpha entry, when
    present, holds one element, and whose target is resolved and has shape
    [[o; i]]: when the factors have one dtype, the iteration adds a delta
    to the target and counts the pair, and in exact arithmetic the entry
    [(a, b)] of that delta is the entry of the matrix product [up·down]
    times the scale times the strength, where the scale is [alpha / r]
    for [r > 0] and 1 otherwise, and alpha is [r] when the entry is
    absent; when the factors differ in dtype, the pair is skipped: the
    iteration returns the working copy and the count as they were. *)
Theorem linear_pair_delta lora_weights lora_key down_key up_key alpha_key down up
    r i o merged k target strength applied :
  select_keys lora_weights lora_key = Some (down_key, up_key, alpha_key) →
  lora_weights !! down_key = Some down →
  lora_weights !! up_key = Some up →
  shape down = [r; i] →
  shape up = [o; r] →
  match lora_weights !! alpha_key with
  | Some t => numel (shape t) = 1
  | None => True
  end →
  resolve_target merged lora_key = Some k →
  merged !! k = Some target →
  shape target = [o; i] →
  if decide (dtype up = dtype down) then
    ∃ delta,
      shape delta = [o; i]
      ∧ dtype delta = dtype up
      ∧ apply_pair rnd lora_weights strength lora_key (merged, applied)
        = Ok (<[k := Torch.add rnd (to_ rnd (dtype delta) target) delta]> merged,
              S applied)
      ∧ ((∀ d q, rnd d q = q) →
         ∀ a b, a < o → b < i →
           at_ delta (a * i + b)
           = (sum_upto r (λ l, (at_ up (a * r + l) * at_ down (l * i + b))%Qc)
              * (if decide (0 < r)%nat
                 then match lora_weights !! alpha_key with
                      | Some t => at_ t 0
                      | None => Qc_of_nat r
                      end / Qc_of_nat r
                 else 1)
              * strength)%Qc)
  else apply_pair rnd lora_weights strength lora_key (merged, applied)
       = Ok (merged, applied).
Proof.
  intros Hkeys Hdown Hup Hsd Hsu Halpha Hres Htarget Hst.
  set (alpha := match lora_weights !! alpha_key with
                | Some t => at_ t 0
                | None => Qc_of_nat r
                end).
  assert (read_pair lora_weights lora_key
          = Ok (Some (down, up, lora_scale alpha r))) as Hread.
  { unfold read_pair. rewrite Hkeys, Hdown, Hup.
    unfold Torch.shape0. rewrite Hsd. simpl.
    unfold alpha, Torch.item. destruct (lora_weights !! alpha_key); [|done].
    by rewrite decide_True. }
  unfold apply_pair. rewrite Hread. simpl.
  unfold merge_pair. rewrite Hres, Htarget.
  unfold lora_delta.
  rewrite (decide_True (P := length (shape down) = 2 ∧ length (shape up) = 2))
    by (by rewrite Hsd, Hsu).
  case_decide as Hdtype.
  - destruct (matmul_entries up down o r i Hsu Hsd Hdtype)
      as (p & -> & Hsp & Hdp & Hentries).
    exists (Torch.mul_scalar rnd (Torch.mul_scalar rnd p (lora_scale alpha r))
              strength).
    simpl. split_and!; [done|done| |].
    + by rewrite decide_True by (by rewrite Hsp, Hst).
    + intros Hexact a b Ha Hb.
      rewrite !at_mul_scalar, Hentries, Hexact by done. done.
  - unfold Torch.matmul. rewrite Hsu, Hsd.
    by rewrite decide_False by (by intros [_ ?]).
Qed.

(** ** What a call returns *)

Lemma merge_pairs_count strength ps st :
  ((merge_pairs rnd strength ps st).2 ≤ st.2 + length ps)%nat.
Proof.
  revert st. induction ps as [|p ps IH]; intros st; [simpl; lia|].
  unfold merge_pairs in *. cbn [foldl]. etrans; [apply IH|].
  destruct st as [m n]. rewrite merge_pair_effect.
  destruct (pair_effect rnd _ _ _ _ _) as [[k d]|]; [|simpl; lia].
  destruct (m !! k); simpl; lia.
Qed.

Lemma read_pairs_length lora_weights keys ps :
  read_pairs lora_weights keys = Ok ps → (length ps ≤ length keys)%nat.
Proof.
  revert ps. induction keys as [|lora_key rest IH]; intros ps; simpl.
  - by intros [= <-].
  - destruct (read_pair lora_weights lora_key) as [p|]; simpl; [|done].
    destruct (read_pairs lora_weights rest) as [ps'|]; simpl; [|done].
    specialize (IH _ eq_refl). intros [= <-]. destruct p; simpl; lia.
Qed.

(** C5: a call that does not raise returns the working copy the loop
    ends with, and nothing else; the count of applied pairs of the loop is
    written to the console, in the line ["    Applied n LoRA weight pairs"],
    and is at most the number of groups of the adapter. *)
Theorem returns_working_copy_prints_count base lora_weights strength o :
  apply_lora_to_weights rnd base lora_weights strength = Ok o →
  ∃ applied,
    apply_pairs rnd lora_weights strength (elements (lora_keys lora_weights)) (base, 0)
    = Ok (returned o, applied)
    ∧ printed o = ["    Applied " +:+ PyStr.of_nat applied +:+ " LoRA weight pairs"]
    ∧ (applied ≤ length (elements (lora_keys lora_weights)))%nat.
Proof.
  unfold apply_lora_to_weights.
  destruct (apply_pairs rnd lora_weights strength _ (base, 0)) as [[m n]|] eqn:Hloop;
    simpl; [|done].
  intros [= <-]. exists n. split_and!; [done..|].
  rewrite apply_pairs_read_merge in Hloop.
  destruct (read_pairs lora_weights _) as [ps|] eqn:Hread; simpl in Hloop; [|done].
  injection Hloop as Hloop.
  pose proof (merge_pairs_count strength ps (base, 0)) as Hcount.
  rewrite Hloop in Hcount. simpl in Hcount.
  apply read_pairs_length in Hread. lia.
Qed.

(** ** Names of the merged result *)

(** C3: whatever adapters a merge job applies (the character adapter and
    any list of common adapters, present or missing, resolvable or not),
    the weights it produces carry exactly the names of the base weight
    set, before and after the final conversion; names are never added or
    removed, and each name keeps the shape of its tensor. *)
Theorem merged_names_are_base_names fs common character_lora_path
    character_strength base w out :
  load_file fs BASE_MODEL = Ok base →
  merged_weights rnd fs common character_lora_path character_strength = Ok (w, out) →
  dom w = dom base
  ∧ dom (finalize rnd w) = dom base
  ∧ shape <$> w = shape <$> base.
Proof.
  intros Hbase. rewrite merged_weights_unfold, Hbase.
  destruct (apply_lora_file rnd fs "   WARNING: Character LoRA not found at "
              character_lora_path character_strength (base, []))
    as [st|] eqn:Hchar; [|done].
  intros Hcommon.
  apply apply_lora_file_shapes in Hchar.
  apply apply_common_loras_shapes in Hcommon. simpl in *.
  assert (shape <$> w = shape <$> base) as Hshapes by congruence.
  split_and!; [|unfold finalize; rewrite dom_fmap_L|done];
    by apply same_shapes_same_dom.
Qed.

(** The file the job writes holds the converted weights. *)
Lemma merge_loras_for_character_saves fs character_name character_lora_path
    character_strength w out :
  merged_weights rnd fs COMMON_LORAS character_lora_path character_strength
  = Ok (w, out) →
  ∃ fs',
    merge_loras_for_character rnd fs character_name character_lora_path
      character_strength
    = Ok (fs', output_path_of character_name, out)
    ∧ load_file fs' (output_path_of character_name) = Ok (finalize rnd w).
Proof.
  intros Hmerged. unfold merge_loras_for_character. rewrite Hmerged. simpl.
  eexists. split; [done|].
  unfold load_file, save_file. by rewrite lookup_insert_eq.
Qed.

(** ** Key resolution *)

Lemma startswith_is_prefix p s : PyStr.startswith p s = String.prefix p s.
Proof.
  revert s. induction p as [|a p IH]; intros [|b s]; simpl; try done.
  destruct (Ascii.eqb_spec a b) as [Hab|Hab], (ascii_dec a b) as [Heq|Hne];
    try done.
Qed.

Lemma substring_all s : String.substring 0 (String.length s) s = s.
Proof. induction s as [|c s IH]; [done|]. simpl. by rewrite IH. Qed.

Lemma drop_is_substring n s :
  PyStr.drop n s = String.substring n (String.length s - n) s.
Proof.
  revert s. induction n as [|n IH]; intros s.
  - rewrite Nat.sub_0_r, substring_all. by destruct s.
  - destruct s as [|c s]; [done|]. simpl. apply IH.
Qed.

Lemma strip_prefix_stripped lora_key :
  strip_prefix lora_key = stripped_identifier lora_key.
Proof.
  unfold strip_prefix, stripped_identifier.
  by rewrite startswith_is_prefix, drop_is_substring.
Qed.

Lemma replace_underscores s : PyStr.replace "_" "." s = underscores_to_dots s.
Proof.
  unfold PyStr.replace. induction s as [|c s IH]; [done|].
  cbn [PyStr.replace_from underscores_to_dots PyStr.startswith].
  rewrite Ascii.eqb_sym.
  destruct (Ascii.eqb c "_"); simpl; by rewrite IH.
Qed.

(** C4: resolution returns the first name present in the base among the
    stripped identifier, the identifier with underscores turned into dots,
    and the two of them behind the namespace prefix, each tried as it is
    and then with the suffix [".weight"]; the outcome depends on the names
    of the base only, so it is the same at every attempt; and a pair that
    was read and resolves to nothing leaves the loop state as it was,
    without an exception. *)
Theorem key_resolution_first_match (m m' : gmap string tensor) lora_weights
    lora_key down up scale strength applied :
  dom m' = dom m →
  read_pair lora_weights lora_key = Ok (Some (down, up, scale)) →
  resolve_target m lora_key = resolve_by_first_match m lora_key
  ∧ resolve_target m' lora_key = resolve_target m lora_key
  ∧ match resolve_target m lora_key with
    | Some k => is_Some (m !! k)
    | None => apply_pair rnd lora_weights strength lora_key (m, applied)
              = Ok (m, applied)
    end.
Proof.
  intros Hdom Hread. split_and!.
  - unfold resolve_target, resolve_by_first_match, base_key_candidates.
    rewrite find_target_first_match.
    by rewrite replace_underscores, strip_prefix_stripped.
  - unfold resolve_target. by apply find_target_dom.
  - destruct (resolve_target m lora_key) as [k|] eqn:Hres.
    + by eapply find_target_is_Some.
    + unfold apply_pair. rewrite Hread. simpl. by rewrite Hres.
Qed.

(** ** The final conversion *)

(** C7: the finalizer is a function on weight sets (it cannot fail) that
    converts the tensors of dtype float32 to bfloat16 and returns every
    other tensor as it is; finalizing twice is finalizing once. *)
Theorem finalize_casts_float32_only weights :
  (∀ k, finalize rnd weights !! k = finalize_tensor rnd <$> weights !! k)
  ∧ (∀ v, finalize_tensor rnd v
          = if decide (dtype v = float32)
            then {| dtype := bfloat16; shape := shape v;
                    data := map (rnd bfloat16) (data v) |}
            else v)
  ∧ finalize rnd (finalize rnd weights) = finalize rnd weights.
Proof.
  split_and!.
  - intros k. unfold finalize. apply lookup_fmap.
  - intros v. unfold finalize_tensor, to_. repeat case_decide; congruence.
  - unfold finalize. rewrite <-map_fmap_compose. apply map_fmap_ext.
    intros k v _. simpl. unfold finalize_tensor, to_.
    repeat (case_decide; simpl in *); congruence.
Qed.

(** ** The update of a target *)

(** C8: when an iteration applies a pair (the count goes up), the tensor
    stored under the target has the dtype of the delta and the shape of
    the target, and each of its elements is the sum, rounded to the dtype
    of the delta, of the delta's element and of the base element, which is
    first converted (rounded) to the dtype of the delta when the base
    tensor has another dtype. *)
Theorem update_in_delta_precision lora_weights strength lora_key merged applied
    merged' :
  apply_pair rnd lora_weights strength lora_key (merged, applied)
  = Ok (merged', S applied) →
  ∃ down up scale k target delta stored,
    read_pair lora_weights lora_key = Ok (Some (down, up, scale))
    ∧ resolve_target merged lora_key = Some k
    ∧ merged !! k = Some target
    ∧ lora_delta rnd up down scale strength target = Ok (Some delta)
    ∧ merged' = <[k := stored]> merged
    ∧ dtype stored = dtype delta
    ∧ shape stored = shape target
    ∧ data stored
      = tabulate (numel (shape target))
          (λ i, rnd (dtype delta)
                  (nth i (if decide (dtype target = dtype delta)
                          then data target
                          else map (rnd (dtype delta)) (data target)) 0
                   + at_ delta i)%Qc).
Proof.
  unfold apply_pair.
  destruct (read_pair lora_weights lora_key) as [[[[down up] scale]|]|];
    simpl; [| intros [= _ Hn]; lia | done].
  unfold merge_pair.
  destruct (resolve_target merged lora_key) as [k|]; [|intros [= _ Hn]; lia].
  destruct (merged !! k) as [target|] eqn:Htarget; [|intros [= _ Hn]; lia].
  destruct (lora_delta rnd up down scale strength target) as [[delta|]|] eqn:Hdelta;
    [|intros [= _ Hn]; lia..].
  case_decide; [|intros [= _ Hn]; lia].
  intros [= <-].
  exists down, up, scale, k, target, delta,
    (Torch.add rnd (to_ rnd (dtype delta) target) delta).
  split_and!; try done.
  - apply dtype_add_to.
  - apply shape_add_to.
  - unfold Torch.add. cbn [data].
    rewrite dtype_to_, promote_types_same, shape_to_.
    apply tabulate_ext. intros i _. do 2 f_equal.
    unfold at_, to_. by case_decide.
Qed.

(** ** Missing inputs *)

(** C9: when the file of an adapter does not exist, the step returns
    without an exception, with the weights it was given and a warning as
    its only output; the job goes on with the remaining adapters from
    those same weights, for a common adapter as for the character adapter;
    and the weights are those an adapter without pairs leaves, whose
    applied count is 0. *)
Theorem missing_adapter_contributes_nothing fs lora_path strength rest common
    warning weights out :
  path_exists fs lora_path = false →
  apply_lora_file rnd fs warning lora_path strength (weights, out)
  = Ok (weights, (out ++ [warning +:+ lora_path])%list)
  ∧ apply_common_loras rnd fs ((lora_path, strength) :: rest) (weights, out)
    = apply_common_loras rnd fs rest
        (weights, (out ++ ["   WARNING: LoRA not found at " +:+ lora_path])%list)
  ∧ merged_weights rnd fs common lora_path strength
    = (base ← load_file fs BASE_MODEL;
       apply_common_loras rnd fs common
         (base, ["   WARNING: Character LoRA not found at " +:+ lora_path]))
  ∧ apply_lora_to_weights rnd weights ∅ strength
    = Ok {| returned := weights; printed := [applied_line 0] |}.
Proof.
  intros Hmissing. split_and!.
  - unfold apply_lora_file. by rewrite Hmissing.
  - simpl. unfold apply_lora_file. by rewrite Hmissing.
  - unfold merged_weights, apply_lora_file. rewrite Hmissing.
    by destruct (load_file fs BASE_MODEL).
  - unfold apply_lora_to_weights, lora_keys.
    by rewrite dom_empty_L, elements_empty.
Qed.

(** C10: a group whose down factor is present under the convention the
    loop selects ([lora_down], else [lora_A]) and whose up factor under
    that convention ([lora_up], resp. [lora_B]) is absent is skipped: the
    iteration raises nothing and returns the working copy and the count
    as they were. *)
Theorem missing_up_factor_skips lora_weights strength lora_key merged applied :
  (is_Some (lora_weights !! (lora_key +:+ ".lora_down.weight"))
   ∧ lora_weights !! (lora_key +:+ ".lora_up.weight") = None)
  ∨ (lora_weights !! (lora_key +:+ ".lora_down.weight") = None
     ∧ is_Some (lora_weights !! (lora_key +:+ ".lora_A.weight"))
     ∧ lora_weights !! (lora_key +:+ ".lora_B.weight") = None) →
  apply_pair rnd lora_weights strength lora_key (merged, applied)
  = Ok (merged, applied).
Proof.
  unfold apply_pair, read_pair, select_keys.
  intros [[[down Hdown] Hup]|(Hdown & [down HA] & HB)].
  - rewrite decide_True by (by rewrite Hdown). by rewrite Hdown, Hup.
  - rewrite decide_False by (rewrite Hdown; by intros [??]).
    rewrite decide_True by (by rewrite HA). by rewrite HA, HB.
Qed.

End Properties.

(** * The properties on the sample weight sets *)

(** The merge of [lora_l] into [base_l]: the product [up·down] is
    [[3 6; 4 8]], the scale is [2 / 1], and the merged matrix is
    [[10 20; 30 40] + [6 12; 8 16]]. *)
Example merged_layer_values :
  (λ t, (dtype t, shape t, map this (data t)))
    <$> returned Examples.outcome_l !! "layer.weight"
  = Some (float32, [2; 2], [16 # 1; 32 # 1; 38 # 1; 56 # 1]).
Proof. vm_compute. reflexivity. Qed.

Lemma linear_pair_delta_witness :
  ∃ delta,
    shape delta = [2; 2]
    ∧ dtype delta = dtype Examples.up_l
    ∧ apply_pair exact Examples.lora_l 1%Qc "lora_unet_layer" (Examples.base_l, 0)
      = Ok (<["layer.weight" := Torch.add exact (to_ exact (dtype delta) Examples.target_l)
                                   delta]> Examples.base_l, 1)
    ∧ ((∀ d x, exact d x = x) →
       ∀ a b, a < 2 → b < 2 →
         at_ delta (a * 2 + b)
         = (sum_upto 1 (λ l, (at_ Examples.up_l (a * 1 + l)
                              * at_ Examples.down_l (l * 2 + b))%Qc)
            * (if decide (0 < 1)%nat
               then match Examples.lora_l !! "lora_unet_layer.alpha" with
                    | Some t => at_ t 0
                    | None => Qc_of_nat 1
                    end / Qc_of_nat 1
               else 1)
            * 1)%Qc).
Proof.
  refine (linear_pair_delta exact Examples.lora_l "lora_unet_layer"
            "lora_unet_layer.lora_down.weight" "lora_unet_layer.lora_up.weight"
            "lora_unet_layer.alpha" Examples.down_l Examples.up_l 1 2 2
            Examples.base_l "layer.weight" Examples.target_l 1%Qc 0
            _ _ _ _ _ _ _ _ _);
    vm_compute; reflexivity.
Defined.

Lemma merged_names_are_base_names_witness :
  load_file Examples.fs_l BASE_MODEL = Ok Examples.base_l
  ∧ merged_weights exact Examples.fs_l COMMON_LORAS Examples.ava_path 1%Qc
    = Ok (Examples.job_l.1, Examples.job_l.2)
  ∧ dom Examples.job_l.1 = dom Examples.base_l
  ∧ dom (finalize exact Examples.job_l.1) = dom Examples.base_l
  ∧ shape <$> Examples.job_l.1 = shape <$> Examples.base_l.
Proof.
  split; [vm_compute; reflexivity|].
  split; [vm_compute; reflexivity|].
  apply (merged_names_are_base_names exact Examples.fs_l COMMON_LORAS
           Examples.ava_path 1%Qc Examples.base_l Examples.job_l.1 Examples.job_l.2);
    vm_compute; reflexivity.
Defined.

Lemma key_resolution_first_match_witness :
  resolve_by_first_match Examples.base_d "lora_unet_blocks_0_attn"
  = Some "blocks.0.attn.weight"
  ∧ resolve_target Examples.base_d "lora_unet_blocks_0_attn"
    = resolve_by_first_match Examples.base_d "lora_unet_blocks_0_attn"
  ∧ resolve_target Examples.base_d' "lora_unet_blocks_0_attn"
    = resolve_target Examples.base_d "lora_unet_blocks_0_attn"
  ∧ match resolve_target Examples.base_d "lora_unet_blocks_0_attn" with
    | Some k => is_Some (Examples.base_d !! k)
    | None => apply_pair exact Examples.lora_d 1%Qc "lora_unet_blocks_0_attn"
                (Examples.base_d, 0)
              = Ok (Examples.base_d, 0)
    end.
Proof.
  split; [vm_compute; reflexivity|].
  apply (key_resolution_first_match exact Examples.base_d Examples.base_d'
           Examples.lora_d "lora_unet_blocks_0_attn" Examples.down_l Examples.up_l
           (lora_scale (Qc_of_nat 1) 1) 1%Qc 0);
    vm_compute; reflexivity.
Defined.

Lemma returns_working_copy_prints_count_witness :
  ∃ applied,
    apply_pairs exact Examples.lora_l 1%Qc (elements (lora_keys Examples.lora_l))
      (Examples.base_l, 0)
    = Ok (returned Examples.outcome_l, applied)
    ∧ printed Examples.outcome_l
      = ["    Applied " +:+ PyStr.of_nat applied +:+ " LoRA weight pairs"]
    ∧ (applied ≤ length (elements (lora_keys Examples.lora_l)))%nat.
Proof.
  apply (returns_working_copy_prints_count exact Examples.base_l Examples.lora_l
           1%Qc Examples.outcome_l).
  vm_compute; reflexivity.
Defined.

Lemma double_application_adds_strengths_witness :
  linear_only Examples.lora_l = true
  ∧ returned <$> (o ← apply_lora_to_weights exact Examples.base_l Examples.lora_l 1%Qc;
                  apply_lora_to_weights exact (returned o) Examples.lora_l 2%Qc)
    = returned <$> apply_lora_to_weights exact Examples.base_l Examples.lora_l
                     (1 + 2)%Qc.
Proof.
  split; [vm_compute; reflexivity|].
  apply (double_application_adds_strengths exact Examples.base_l Examples.lora_l
           1%Qc 2%Qc).
  - intros d x. reflexivity.
  - vm_compute; reflexivity.
Defined.

Lemma update_in_delta_precision_witness :
  ∃ down up scale k target delta stored,
    read_pair Examples.lora_h "lora_unet_layer" = Ok (Some (down, up, scale))
    ∧ resolve_target Examples.base_h "lora_unet_layer" = Some k
    ∧ Examples.base_h !! k = Some target
    ∧ lora_delta Examples.coarse up down scale 1%Qc target = Ok (Some delta)
    ∧ Examples.pair_h.1 = <[k := stored]> Examples.base_h
    ∧ dtype stored = dtype delta
    ∧ shape stored = shape target
    ∧ data stored
      = tabulate (numel (shape target))
          (λ i, Examples.coarse (dtype delta)
                  (nth i (if decide (dtype target = dtype delta)
                          then data target
                          else map (Examples.coarse (dtype delta)) (data target)) 0
                   + at_ delta i)%Qc).
Proof.
  apply (update_in_delta_precision Examples.coarse Examples.lora_h 1%Qc
           "lora_unet_layer" Examples.base_h 0 Examples.pair_h.1).
  vm_compute; reflexivity.
Defined.

(** The update of [base_h], stored in [float32], by the [bfloat16] pair of
    [lora_h] under [coarse]: the stored tensor is [bfloat16]; the base
    elements [5/2] are converted to 2 before the sum, so the first row is
    [2 - 1]; the sums [2 + 1/2] of the second row are rounded to 2. *)
Example converted_update_values :
  (λ t, (dtype t, shape t, map this (data t)))
    <$> Examples.pair_h.1 !! "layer.weight"
  = Some (bfloat16, [2; 2], [1 # 1; 1 # 1; 2 # 1; 2 # 1]).
Proof. vm_compute. reflexivity. Qed.

(** The update of [base_b], stored in [bfloat16], by the [float32] pair
    of [lora_l]: the stored tensor is [float32], and its elements are the
    base elements [1/2 1 2 3] plus the delta [6 12 8 16]. *)
Example promoted_update_values :
  (λ t, (dtype t, shape t, map this (data t)))
    <$> Examples.pair_b.1 !! "layer.weight"
  = Some (float32, [2; 2], [13 # 2; 13 # 1; 10 # 1; 19 # 1]).
Proof. vm_compute. reflexivity. Qed.

Lemma missing_adapter_contributes_nothing_witness :
  path_exists Examples.fs_l Examples.lightning_path = false
  ∧ apply_lora_file exact Examples.fs_l "   WARNING: LoRA not found at "
      Examples.lightning_path 1%Qc (Examples.base_l, [])
    = Ok (Examples.base_l,
          ["   WARNING: LoRA not found at " +:+ Examples.lightning_path]).
Proof.
  split; [vm_compute; reflexivity|].
  apply (missing_adapter_contributes_nothing exact Examples.fs_l
           Examples.lightning_path 1%Qc [] [] "   WARNING: LoRA not found at "
           Examples.base_l []).
  vm_compute; reflexivity.
Defined.

Lemma missing_up_factor_skips_witness :
  is_Some (Examples.lora_no_up !! "lora_unet_layer.lora_down.weight")
  ∧ Examples.lora_no_up !! "lora_unet_layer.lora_up.weight" = None
  ∧ apply_pair exact Examples.lora_no_up 1%Qc "lora_unet_layer" (Examples.base_l, 0)
    = Ok (Examples.base_l, 0).
Proof.
  assert (is_Some (Examples.lora_no_up !! "lora_unet_layer.lora_down.weight")) as Hdown.
  { vm_compute. eexists. reflexivity. }
  assert (Examples.lora_no_up !! "lora_unet_layer.lora_up.weight" = None) as Hup.
  { vm_compute. reflexivity. }
  split; [exact Hdown|]. split; [exact Hup|].
  apply (missing_up_factor_skips exact Examples.lora_no_up 1%Qc "lora_unet_layer"
           Examples.base_l 0).
  left. split; [exact Hdown | exact Hup].
Defined.

(** * Where the code departs from a statement of the specification *)

(** Against C2 as stated: the pair of [lora_mixed] meets every condition
    of the statement (both factors are matrices, [down] of shape
    [[1; 2]], [up] of shape [[2; 1]], the target is resolved and has
    shape [[2; 2]]), but its factors differ in dtype, the matrix product
    raises inside the [try], and no delta is added: the iteration returns
    the working copy and the count as they were. *)
Lemma mixed_precision_pair_is_skipped :
  select_keys Examples.lora_mixed "lora_unet_layer"
  = Some ("lora_unet_layer.lora_down.weight", "lora_unet_layer.lora_up.weight",
          "lora_unet_layer.alpha")
  ∧ shape <$> Examples.lora_mixed !! "lora_unet_layer.lora_down.weight" = Some [1; 2]
  ∧ shape <$> Examples.lora_mixed !! "lora_unet_layer.lora_up.weight" = Some [2; 1]
  ∧ resolve_target Examples.base_l "lora_unet_layer" = Some "layer.weight"
  ∧ shape <$> Examples.base_l !! "layer.weight" = Some [2; 2]
  ∧ apply_pair exact Examples.lora_mixed 1%Qc "lora_unet_layer" (Examples.base_l, 0)
    = Ok (Examples.base_l, 0)
  ∧ ¬ ∃ delta,
        apply_pair exact Examples.lora_mixed 1%Qc "lora_unet_layer" (Examples.base_l, 0)
        = Ok (<["layer.weight" := Torch.add exact (to_ exact (dtype delta) Examples.target_l)
                                     delta]> Examples.base_l, 1).
Proof.
  assert (apply_pair exact Examples.lora_mixed 1%Qc "lora_unet_layer"
            (Examples.base_l, 0) = Ok (Examples.base_l, 0)) as Hskip.
  { vm_compute. reflexivity. }
  split_and!; try (vm_compute; reflexivity).
  intros [delta Hdelta]. rewrite Hskip in Hdelta. discriminate Hdelta.
Qed.

(** Against C5 as stated: the call on [lora_other], which applies no
    pair, and the call on [lora_l] with strength 0, which applies one,
    hand the same value back to the caller; the two counts, 0 and 1, are
    in what the calls print, not in what they return. *)
Lemma applied_count_is_not_returned :
  returned <$> apply_lora_to_weights exact Examples.base_l Examples.lora_other 1%Qc
  = returned <$> apply_lora_to_weights exact Examples.base_l Examples.lora_l 0%Qc
  ∧ printed <$> apply_lora_to_weights exact Examples.base_l Examples.lora_other 1%Qc
    = Ok ["    Applied 0 LoRA weight pairs"]
  ∧ printed <$> apply_lora_to_weights exact Examples.base_l Examples.lora_l 0%Qc
    = Ok ["    Applied 1 LoRA weight pairs"].
Proof.
  split_and!.
  - apply (bool_decide_unpack _). vm_compute. exact I.
  - vm_compute. reflexivity.
  - vm_compute. reflexivity.
Qed.

(** * Further behaviour of the merger, the merge job and the run *)

Section Behaviour.
Variable rnd : torch_dtype → Qc → Qc.

Lemma pair_effect_key shapes tk down up scale k d :
  pair_effect rnd shapes tk down up scale = Some (k, d) → tk = Some k.
Proof.
  unfold pair_effect. destruct tk as [k'|]; [|done].
  destruct (shapes !! k'); [|done].
  destruct (delta_core rnd up down scale l) as [[d'|]|]; [|done..].
  case_decide; [|done]. by intros [= -> _].
Qed.

Lemma read_pairs_names lora_weights keys ps :
  read_pairs lora_weights keys = Ok ps → ∀ p, p ∈ ps → p.1 ∈ keys.
Proof.
  revert ps. induction keys as [|g rest IH]; intros ps; simpl.
  - intros [= <-] p Hp. by apply elem_of_nil in Hp.
  - destruct (read_pair lora_weights g) as [pr|]; simpl; [|done].
    destruct (read_pairs lora_weights rest) as [ps'|]; simpl; [|done].
    intros [= <-] p Hp. destruct pr as [pr|].
    + apply elem_of_cons in Hp as [->|Hp]; [left|right; by eapply IH].
    + right. by eapply IH.
Qed.

Lemma deltas_at_nil (m : gmap string tensor) k ps :
  (∀ p, p ∈ ps → resolve_target m p.1 ≠ Some k) → deltas_at rnd m k ps = [].
Proof.
  induction ps as [|p ps IH]; intros Hps; [done|].
  rewrite deltas_at_cons.
  destruct (pair_effect rnd _ _ _ _ _) as [[k' d]|] eqn:Heff.
  - apply pair_effect_key in Heff. case_decide; subst.
    + exfalso. eapply Hps; [left|done].
    + apply IH. intros p' Hp'. apply Hps. by right.
  - apply IH. intros p' Hp'. apply Hps. by right.
Qed.

(** X1: a call changes only targets: a name of the base that no group of
    the adapter resolves to holds, in the returned weights, the tensor it
    held in the base. *)
Theorem untargeted_names_unchanged base lora_weights strength o k :
  apply_lora_to_weights rnd base lora_weights strength = Ok o →
  (∀ g, g ∈ lora_keys lora_weights → resolve_target base g ≠ Some k) →
  returned o !! k = base !! k.
Proof.
  unfold apply_lora_to_weights. rewrite apply_pairs_read_merge.
  destruct (read_pairs lora_weights _) as [ps|] eqn:Hread; simpl; [|done].
  destruct (merge_pairs rnd strength ps (base, 0)) as [m n] eqn:Hmerge.
  intros [= <-] Hnone. simpl.
  change m with (m, n).1. rewrite <-Hmerge, merge_pairs_lookup. simpl.
  rewrite deltas_at_nil; [by destruct (base !! k)|].
  intros p Hp. apply Hnone. apply elem_of_elements.
  by eapply read_pairs_names.
Qed.

(** ** Exceptions that leave the call *)

Lemma endswith_app suffix g : PyStr.endswith suffix (g +:+ suffix) = true.
Proof.
  induction g as [|c g IH].
  - change ("" +:+ suffix) with suffix.
    destruct suffix; unfold PyStr.endswith; by rewrite String.eqb_refl.
  - change (String c g +:+ suffix) with (String c (g +:+ suffix)).
    change (PyStr.endswith suffix (String c (g +:+ suffix)))
      with (if String.eqb (String c (g +:+ suffix)) suffix then true
            else PyStr.endswith suffix (g +:+ suffix)).
    by destruct (String.eqb (String c (g +:+ suffix)) suffix).
Qed.

Lemma read_pair_ok lora_weights g :
  adapter_wf lora_weights → ∃ r, read_pair lora_weights g = Ok r.
Proof.
  intros Hwf. unfold read_pair.
  destruct (select_keys lora_weights g) as [[[dk uk] ak]|] eqn:Hkeys; [|by eexists].
  destruct (lora_weights !! dk) as [down|] eqn:Hdown; [|by eexists].
  destruct (lora_weights !! uk) as [up|]; [|by eexists].
  assert (shape down ≠ []) as Hshape.
  { apply (Hwf _ _ Hdown). unfold select_keys in Hkeys.
    repeat case_decide; simplify_eq; [left|right]; apply endswith_app. }
  assert (ak = g +:+ ".alpha") as ->.
  { unfold select_keys in Hkeys. by repeat case_decide; simplify_eq. }
  unfold Torch.shape0. destruct (shape down) as [|rank sh]; [done|]. simpl.
  destruct (lora_weights !! (g +:+ ".alpha")) as [a|] eqn:Halpha; simpl; [|by eexists].
  unfold Torch.item. rewrite decide_True; [by eexists|].
  apply (Hwf _ _ Halpha), endswith_app.
Qed.

Lemma read_pairs_ok lora_weights keys :
  adapter_wf lora_weights → ∃ ps, read_pairs lora_weights keys = Ok ps.
Proof.
  intros Hwf. induction keys as [|g rest [ps IH]]; simpl; [by eexists|].
  destruct (read_pair_ok lora_weights g Hwf) as [r ->]. rewrite IH. by eexists.
Qed.

(** X2: on an adapter set in which every alpha entry holds one element
    and every down factor has at least one dimension, the call returns,
    whatever the base and the strength: every other failure of a pair is
    caught and skips that pair. *)
Theorem well_formed_adapter_never_raises base lora_weights strength :
  adapter_wf lora_weights →
  ∃ o, apply_lora_to_weights rnd base lora_weights strength = Ok o.
Proof.
  intros Hwf. unfold apply_lora_to_weights. rewrite apply_pairs_read_merge.
  destruct (read_pairs_ok lora_weights (elements (lora_keys lora_weights)) Hwf)
    as [ps ->].
  simpl. destruct (merge_pairs rnd strength ps (base, 0)). by eexists.
Qed.

Lemma read_pairs_raise lora_weights keys g e :
  g ∈ keys → read_pair lora_weights g = Raise e →
  ∃ e', read_pairs lora_weights keys = Raise e'.
Proof.
  intros Hin Hraise. induction keys as [|g' rest IH]; [by apply elem_of_nil in Hin|].
  simpl. apply elem_of_cons in Hin as [<-|Hin].
  - rewrite Hraise. by eexists.
  - destruct (read_pair lora_weights g'); simpl; [|by eexists].
    destruct (IH Hin) as [e' ->]. by eexists.
Qed.

(** X3: a group with both factors present whose down factor has no
    dimension, or whose alpha entry does not hold exactly one element,
    makes the whole call raise: [down.shape[0]] and [alpha.item()] are
    evaluated outside the [try], so the pair is not skipped. *)
Theorem malformed_pair_aborts_call base lora_weights strength g down_key up_key
    alpha_key down :
  g ∈ lora_keys lora_weights →
  select_keys lora_weights g = Some (down_key, up_key, alpha_key) →
  lora_weights !! down_key = Some down →
  is_Some (lora_weights !! up_key) →
  shape down = []
  ∨ (∃ a, lora_weights !! alpha_key = Some a ∧ numel (shape a) ≠ 1) →
  ∃ e, apply_lora_to_weights rnd base lora_weights strength = Raise e.
Proof.
  intros Hin Hkeys Hdown [up Hup] Hbad.
  assert (∃ e, read_pair lora_weights g = Raise e) as [e Hraise].
  { unfold read_pair. rewrite Hkeys, Hdown, Hup. unfold Torch.shape0.
    destruct Hbad as [->|(a & Halpha & Hnumel)]; [by eexists|].
    destruct (shape down); [by eexists|]. simpl. rewrite Halpha.
    unfold Torch.item. rewrite decide_False by done. by eexists. }
  unfold apply_lora_to_weights. rewrite apply_pairs_read_merge.
  destruct (read_pairs_raise lora_weights (elements (lora_keys lora_weights)) g e)
    as [e' ->]; [by apply elem_of_elements|done|].
  by eexists.
Qed.

(** ** Strength zero *)

Lemma tabulate_nth (l : list Qc) n :
  length l = n → tabulate n (λ i, nth i l 0%Qc) = l.
Proof.
  intros Hlen. apply list_eq. intros i. unfold tabulate.
  rewrite list_lookup_fmap.
  destruct (decide (i < n)) as [Hi|Hi].
  - rewrite lookup_seq_lt by done. simpl. rewrite nth_lookup.
    destruct (lookup_lt_is_Some_2 l i) as [x ->]; [lia|done].
  - rewrite lookup_seq_ge by lia. simpl. symmetry. apply lookup_ge_None. lia.
Qed.

Lemma update_by_zero d x :
  (∀ d' q, rnd d' q = q) → tensor_wf x →
  shape (update_by rnd 0%Qc d x) = shape x
  ∧ data (update_by rnd 0%Qc d x) = data x
  ∧ tensor_wf (update_by rnd 0%Qc d x).
Proof.
  intros Hexact Hwf.
  assert (shape (update_by rnd 0%Qc d x) = shape x) as Hshape.
  { unfold update_by, Torch.add. simpl. apply shape_to_. }
  assert (data (update_by rnd 0%Qc d x) = data x) as Hdata.
  { unfold update_by, Torch.add. cbn [data]. rewrite shape_to_.
    etrans; [|apply (tabulate_nth (data x) _ Hwf)].
    apply tabulate_ext. intros i _.
    rewrite Hexact, at_to_exact, at_mul_scalar by done. unfold at_. ring. }
  unfold tensor_wf in *. by rewrite Hshape, Hdata.
Qed.

(** X4: in exact arithmetic, a call with strength 0 keeps the shape and
    the elements of every base tensor that holds as many elements as its
    shape says (its dtype may become the one of a delta). *)
Theorem strength_zero_keeps_elements base lora_weights o k t :
  (∀ d q, rnd d q = q) →
  apply_lora_to_weights rnd base lora_weights 0%Qc = Ok o →
  base !! k = Some t →
  tensor_wf t →
  ∃ t', returned o !! k = Some t' ∧ shape t' = shape t ∧ data t' = data t.
Proof.
  intros Hexact. unfold apply_lora_to_weights. rewrite apply_pairs_read_merge.
  destruct (read_pairs lora_weights _) as [ps|]; simpl; [|done].
  destruct (merge_pairs rnd 0%Qc ps (base, 0)) as [m n] eqn:Hmerge.
  intros [= <-] Hk Hwf. simpl.
  change m with (m, n).1. rewrite <-Hmerge, merge_pairs_lookup. simpl.
  rewrite Hk. simpl. eexists. split; [done|].
  generalize (deltas_at rnd base k ps). intros ds.
  cut (shape (foldl (λ x d, update_by rnd 0%Qc d x) t ds) = shape t
       ∧ data (foldl (λ x d, update_by rnd 0%Qc d x) t ds) = data t
       ∧ tensor_wf (foldl (λ x d, update_by rnd 0%Qc d x) t ds)); [tauto|].
  clear Hmerge Hk. revert t Hwf.
  induction ds as [|d ds IH]; intros t Hwf; [done|].
  cbn [foldl].
  destruct (update_by_zero d t Hexact Hwf) as (Hs & Hd & Hwf').
  rewrite <-Hs, <-Hd. by apply IH.
Qed.

(** ** The scale without an alpha entry *)

Lemma lora_scale_default rank : lora_scale (Qc_of_nat rank) rank = 1%Qc.
Proof.
  unfold lora_scale. case_decide as Hrank; [|done].
  unfold Qcdiv. apply Qcmult_inv_r. unfold Qc_of_nat.
  rewrite <-Z2Qc_inj_0. intros Heq%Z2Qc_inj. lia.
Qed.

(** X5: a pair without an alpha entry is read with scale 1, whatever its
    rank, rank 0 included. *)
Theorem absent_alpha_gives_scale_one lora_weights g down_key up_key alpha_key
    down up scale :
  select_keys lora_weights g = Some (down_key, up_key, alpha_key) →
  lora_weights !! alpha_key = None →
  read_pair lora_weights g = Ok (Some (down, up, scale)) →
  scale = 1%Qc.
Proof.
  intros Hkeys Halpha. unfold read_pair. rewrite Hkeys, Halpha.
  destruct (lora_weights !! down_key) as [down'|]; [|done].
  destruct (lora_weights !! up_key) as [up'|]; [|done].
  destruct (Torch.shape0 down') as [rank|]; simpl; [|done].
  intros [= _ _ <-]. apply lora_scale_default.
Qed.

(** ** When a linear pair is applied *)

(** X7: a pair of matrices [down] of shape [[r'; i]] and [up] of shape
    [[o; r]] whose target is resolved is applied (the count goes up by
    one) exactly when the ranks agree, the factors have one dtype and the
    target has shape [[o; i]]; otherwise the loop state, working copy and
    count, is left as it was. *)
Theorem linear_pair_applied_iff strength g down up scale merged applied k target
    o r r' i :
  shape down = [r'; i] →
  shape up = [o; r] →
  resolve_target merged g = Some k →
  merged !! k = Some target →
  ((merge_pair rnd strength g down up scale (merged, applied)).2 = S applied
   ↔ r = r' ∧ dtype up = dtype down ∧ shape target = [o; i])
  ∧ (¬ (r = r' ∧ dtype up = dtype down ∧ shape target = [o; i]) →
     merge_pair rnd strength g down up scale (merged, applied) = (merged, applied)).
Proof.
  intros Hdown Hup Hres Htarget. unfold merge_pair. rewrite Hres, Htarget.
  unfold lora_delta. rewrite decide_True by (by rewrite Hdown, Hup).
  unfold Torch.matmul. rewrite Hup, Hdown.
  destruct (decide (r = r' ∧ dtype up = dtype down)) as [[-> Hdtype]|Hno]; simpl.
  - case_decide as Hshape; simpl.
    + split; [by split|]. intros Hnot. by destruct Hnot.
    + split; [|done].
      split; [lia|]. intros (_ & _ & Heq). by rewrite Heq in Hshape.
  - split; [|done]. split; [lia|]. intros (? & ? & _). by destruct Hno.
Qed.

(** ** A call that applies nothing *)

Lemma merge_pairs_count_ge strength ps st :
  (st.2 ≤ (merge_pairs rnd strength ps st).2)%nat.
Proof.
  revert st. induction ps as [|p ps IH]; intros st; [done|].
  unfold merge_pairs in *. cbn [foldl]. etrans; [|apply IH].
  destruct st as [m n]. rewrite merge_pair_effect.
  destruct (pair_effect rnd _ _ _ _ _) as [[k d]|]; [|done].
  destruct (m !! k); simpl; lia.
Qed.

Lemma merge_pairs_count_same strength ps st :
  (merge_pairs rnd strength ps st).2 = st.2 →
  (merge_pairs rnd strength ps st).1 = st.1.
Proof.
  revert st. induction ps as [|p ps IH]; intros st; [done|].
  unfold merge_pairs in *. cbn [foldl].
  pose proof (merge_pairs_count_ge strength ps
                (merge_pair rnd strength p.1 p.2.1.1 p.2.1.2 p.2.2 st)) as Hge.
  unfold merge_pairs in Hge.
  destruct st as [m n]. rewrite merge_pair_effect in *.
  destruct (pair_effect rnd _ _ _ _ _) as [[k d]|]; [|apply IH].
  destruct (m !! k); [|apply IH]. simpl in *. lia.
Qed.

Lemma applied_line_zero n : applied_line n = applied_line 0 → n = 0.
Proof.
  unfold applied_line, PyStr.of_nat. intros H.
  rewrite <-(DecimalNat.Unsigned.of_to n).
  destruct (Nat.to_uint n) as [|d|d|d|d|d|d|d|d|d|d]; try done.
  destruct d; done.
Qed.

(** X8: a call that reports ["    Applied 0 LoRA weight pairs"] returns
    the base weights as they were. *)
Theorem applied_zero_returns_base base lora_weights strength o :
  apply_lora_to_weights rnd base lora_weights strength = Ok o →
  printed o = ["    Applied 0 LoRA weight pairs"] →
  returned o = base.
Proof.
  unfold apply_lora_to_weights. rewrite apply_pairs_read_merge.
  destruct (read_pairs lora_weights _) as [ps|]; simpl; [|done].
  destruct (merge_pairs rnd strength ps (base, 0)) as [m n] eqn:Hmerge.
  intros [= <-]. simpl. intros Hprinted.
  apply (f_equal (hd "")) in Hprinted.
  pose proof (applied_line_zero n Hprinted) as Hn. subst n.
  pose proof (merge_pairs_count_same strength ps (base, 0)) as Hsame.
  rewrite Hmerge in Hsame. by apply Hsame.
Qed.

(** ** Adapter sets without down factors *)

Lemma omap_all_None {A B} (f : A → option B) l :
  Forall (λ x, f x = None) l → omap f l = [].
Proof. induction 1 as [|x l Hx _ IH]; [done|]. simpl. by rewrite Hx. Qed.

(** X10: an adapter set none of whose keys contains [".lora_down."] or
    [".lora_A."] (up factors and alphas alone, for instance) has no group:
    the call returns the base and reports 0 applied pairs. *)
Theorem no_down_factor_applies_nothing base lora_weights strength :
  map_Forall (λ key _, group_of_key key = None) lora_weights →
  apply_lora_to_weights rnd base lora_weights strength
  = Ok {| returned := base; printed := ["    Applied 0 LoRA weight pairs"] |}.
Proof.
  intros Hnone. unfold apply_lora_to_weights, lora_keys.
  rewrite omap_all_None; [done|].
  apply list.Forall_forall. intros key [t Ht]%elem_of_elements%elem_of_dom.
  by apply (Hnone _ _ Ht).
Qed.

(** ** Kernels of width 1 *)

Lemma sum_upto_ext n f g :
  (∀ l, l < n → f l = g l) → sum_upto n f = sum_upto n g.
Proof.
  induction n as [|n IH]; intros Hfg; [done|]. simpl.
  rewrite IH, Hfg by (intros; try apply Hfg; lia). done.
Qed.

Lemma bidx_lt dim l : l < dim → Torch.bidx dim l = l.
Proof. unfold Torch.bidx. case_decide; lia. Qed.

Lemma flat_index_3 a b c i kh :
  b < i → c < kh →
  let j := (a * i + b) * kh + c in
  j mod 1 = 0 ∧ (j / 1) mod kh = c ∧ (j / (1 * kh)) mod i = b
  ∧ j / (1 * kh * i) = a.
Proof.
  intros Hb Hc j. subst j.
  assert (((a * i + b) * kh + c) / kh = a * i + b) as Hdiv.
  { rewrite Nat.div_add_l, Nat.div_small by lia. lia. }
  split_and!.
  - apply Nat.mod_1_r.
  - rewrite Nat.div_1_r, Nat.add_comm, Nat.Div0.mod_add. by apply Nat.mod_small.
  - rewrite Nat.mul_1_l, Hdiv, Nat.add_comm, Nat.Div0.mod_add.
    by apply Nat.mod_small.
  - rewrite Nat.mul_1_l, <-Nat.Div0.div_div, Hdiv.
    rewrite Nat.div_add_l, Nat.div_small by lia. lia.
Qed.

Lemma einsum_pointwise_kernel up down o r i kh :
  shape up = [o; r; 1; 1] → shape down = [r; i; kh; 1] → dtype up = dtype down →
  ∃ c, Torch.einsum_orhw_rich_oicw rnd up down = Ok c
       ∧ shape c = [o; i; kh; 1]
       ∧ dtype c = dtype up
       ∧ ((∀ d q, rnd d q = q) →
          ∀ a b c0, a < o → b < i → c0 < kh →
            at_ c ((a * i + b) * kh + c0)
            = sum_upto r (λ l, (at_ up (a * r + l)
                                * at_ down ((l * i + b) * kh + c0))%Qc)).
Proof.
  intros Hup Hdown Hdtype.
  unfold Torch.einsum_orhw_rich_oicw, Torch.bcast. rewrite Hup, Hdown.
  rewrite (decide_True (P := r = r)), (decide_True (P := 1 = 1)) by done.
  rewrite decide_True by (by left).
  eexists. split_and!; [done|done| |].
  { simpl. by rewrite Hdtype, promote_types_same. }
  intros Hexact a b c0 Ha Hb Hc.
  assert ((a * i + b) * kh + c0 < o * i * kh * 1) as Hlt.
  { assert (a * i + b + 1 ≤ o * i)%nat as H1 by nia.
    assert ((a * i + b) * kh + c0 + 1 ≤ (a * i + b + 1) * kh)%nat as H2 by nia.
    assert ((a * i + b + 1) * kh ≤ o * i * kh)%nat as H3
      by (by apply Nat.mul_le_mono_r).
    lia. }
  unfold at_ at 1. cbn [data]. rewrite nth_tabulate by done. cbv zeta.
  rewrite Hexact.
  destruct (flat_index_3 a b c0 i kh Hb Hc) as (-> & -> & -> & ->).
  apply sum_upto_ext. intros l Hl. simpl sum_upto.
  rewrite (bidx_lt r l), (bidx_lt 1 0) by lia.
  rewrite Qcplus_0_l. do 2 f_equal; lia.
Qed.

Lemma at_reshape t sh t' i : Torch.reshape t sh = Ok t' → at_ t' i = at_ t i.
Proof. unfold Torch.reshape. case_decide; [|done]. by intros [= <-]. Qed.

(** X6: for a convolution pair in the documented layout whose kernel has
    width 1 ([down] of shape [[r; i; kh; 1]], [up] of shape
    [[o; r; 1; 1]], one dtype) and a target with [o * i * kh] elements,
    the delta has the shape of the target (after a reshape when the shapes
    differ) and the dtype of the factors, and in exact arithmetic its
    element [(a, b, c)] is the sum over the rank of
    [up[a, l] * down[l, b, c]], times the scale and the strength. *)
Theorem pointwise_kernel_delta up down scale strength target o r i kh :
  shape up = [o; r; 1; 1] →
  shape down = [r; i; kh; 1] →
  dtype up = dtype down →
  numel (shape target) = numel [o; i; kh; 1] →
  ∃ delta,
    lora_delta rnd up down scale strength target = Ok (Some delta)
    ∧ shape delta = shape target
    ∧ dtype delta = dtype up
    ∧ ((∀ d q, rnd d q = q) →
       ∀ a b c, a < o → b < i → c < kh →
         at_ delta ((a * i + b) * kh + c)
         = (sum_upto r (λ l, (at_ up (a * r + l)
                              * at_ down ((l * i + b) * kh + c))%Qc)
            * scale * strength)%Qc).
Proof.
  intros Hup Hdown Hdtype Htarget.
  destruct (einsum_pointwise_kernel up down o r i kh Hup Hdown Hdtype)
    as (c & Hc & Hsc & Hdc & Hentries).
  unfold lora_delta.
  rewrite decide_False by (rewrite Hdown; by intros [? _]).
  rewrite decide_True by (by rewrite Hdown, Hup).
  rewrite Hc. cbn [mbind result_bind]. cbv zeta.
  case_decide as Hshape.
  - destruct (Torch.reshape _ (shape target)) as [d|e] eqn:Hreshape.
    + cbn [mbind result_bind]. exists d. split_and!; [done| | |].
      * revert Hreshape. unfold Torch.reshape. case_decide; [|done].
        by intros [= <-].
      * revert Hreshape. unfold Torch.reshape. case_decide; [|done].
        by intros [= <-].
      * intros Hexact a b c0 Ha Hb Hc0.
        rewrite (at_reshape _ _ _ _ Hreshape), !at_mul_scalar by done.
        by rewrite Hentries.
    + exfalso. revert Hreshape. unfold Torch.reshape.
      rewrite decide_True; [done|]. cbn [Torch.mul_scalar shape].
      by rewrite Hsc.
  - cbn [Torch.mul_scalar shape] in Hshape.
    eexists. split_and!; [done..|].
    intros Hexact a b c0 Ha Hb Hc0. rewrite !at_mul_scalar by done.
    by rewrite Hentries.
Qed.

(** ** The groups the first loop collects *)

Lemma startswith_refl p : PyStr.startswith p p = true.
Proof. induction p as [|c p IH]; [done|]. simpl. by rewrite Ascii.eqb_refl. Qed.

Lemma replace_from_skip_all old new k s :
  (String.length s ≤ k)%nat → PyStr.replace_from old new k s = "".
Proof.
  revert k. induction s as [|c s IH]; intros k Hk; [done|].
  simpl in *. destruct k as [|k]; [lia|]. apply IH. lia.
Qed.

Lemma replace_pattern_itself c p :
  PyStr.replace (String c p) "" (String c p) = "".
Proof.
  unfold PyStr.replace.
  change (PyStr.replace_from (String c p) "" 0 (String c p))
    with (if PyStr.startswith (String c p) (String c p)
          then "" +:+ PyStr.replace_from (String c p) ""
                        (String.length (String c p) - 1) p
          else String c (PyStr.replace_from (String c p) "" 0 p)).
  rewrite startswith_refl. simpl. apply replace_from_skip_all. lia.
Qed.

Lemma replace_suffix c p g :
  PyStr.no_match_in (String c p) g = true →
  PyStr.replace (String c p) "" (g +:+ String c p) = g.
Proof.
  induction g as [|a g IH]; intros Hg.
  - apply replace_pattern_itself.
  - cbn [PyStr.no_match_in] in Hg. apply andb_true_iff in Hg as [Hhere Hg].
    apply negb_true_iff in Hhere.
    unfold PyStr.replace in *.
    change (String a g +:+ String c p) with (String a (g +:+ String c p)) in *.
    change (PyStr.replace_from (String c p) "" 0 (String a (g +:+ String c p)))
      with (if PyStr.startswith (String c p) (String a (g +:+ String c p))
            then "" +:+ PyStr.replace_from (String c p) ""
                          (String.length (String c p) - 1) (g +:+ String c p)
            else String a (PyStr.replace_from (String c p) "" 0 (g +:+ String c p))).
    rewrite Hhere. f_equal. by apply IH.
Qed.

Lemma contains_app_r p g s :
  PyStr.contains p s = true → PyStr.contains p (g +:+ s) = true.
Proof.
  intros Hs. induction g as [|a g IH]; [done|].
  change (String a g +:+ s) with (String a (g +:+ s)).
  change (PyStr.contains p (String a (g +:+ s)))
    with (if PyStr.startswith p (String a (g +:+ s)) then true
          else PyStr.contains p (g +:+ s)).
  by destruct (PyStr.startswith p (String a (g +:+ s))).
Qed.

Lemma elem_of_lora_keys lora_weights g :
  g ∈ lora_keys lora_weights
  ↔ ∃ key, is_Some (lora_weights !! key) ∧ group_of_key key = Some g.
Proof.
  unfold lora_keys. rewrite elem_of_list_to_set, list_elem_of_omap.
  split; intros (key & Hkey & Hg); exists key; split; try done.
  - by apply elem_of_dom, elem_of_elements.
  - by apply elem_of_elements, elem_of_dom.
Qed.

(** X9: the first loop finds a group from its down factor: when the key
    [g.lora_down.weight] is in the adapter set and the suffix occurs in it
    at its end only, [g] is in [lora_keys] and the second loop selects its
    keys; likewise for [g.lora_A.weight], when the key does not contain
    [".lora_down."]. *)
Theorem group_of_down_key_is_visited lora_weights g :
  (PyStr.no_match_in ".lora_down.weight" g = true
   ∧ is_Some (lora_weights !! (g +:+ ".lora_down.weight")))
  ∨ (PyStr.no_match_in ".lora_A.weight" g = true
     ∧ PyStr.contains ".lora_down." (g +:+ ".lora_A.weight") = false
     ∧ is_Some (lora_weights !! (g +:+ ".lora_A.weight"))) →
  g ∈ lora_keys lora_weights ∧ is_Some (select_keys lora_weights g).
Proof.
  intros H. split.
  - apply elem_of_lora_keys.
    destruct H as [[Hg Hkey]|(Hg & Hno & Hkey)]; eexists; (split; [exact Hkey|]);
      unfold group_of_key.
    + rewrite contains_app_r by done. f_equal. by apply replace_suffix.
    + rewrite Hno, contains_app_r by done. f_equal. by apply replace_suffix.
  - unfold select_keys.
    destruct H as [[_ Hkey]|(_ & _ & Hkey)]; repeat case_decide; done.
Qed.

(** ** What a merge job reads and writes *)

Lemma apply_lora_file_agree fs1 fs2 warning lora_path strength st :
  fs1 !! lora_path = fs2 !! lora_path →
  apply_lora_file rnd fs1 warning lora_path strength st
  = apply_lora_file rnd fs2 warning lora_path strength st.
Proof.
  intros Hagree. destruct st as [w out].
  unfold apply_lora_file, path_exists, load_file. by rewrite Hagree.
Qed.

Lemma apply_common_loras_agree fs1 fs2 loras st :
  Forall (λ l, fs1 !! l.1 = fs2 !! l.1) loras →
  apply_common_loras rnd fs1 loras st = apply_common_loras rnd fs2 loras st.
Proof.
  intros Hagree. revert st.
  induction Hagree as [|[lora_path strength] rest Hl _ IH]; intros st; [done|].
  simpl. rewrite (apply_lora_file_agree fs1 fs2) by done.
  destruct (apply_lora_file rnd fs2 _ lora_path strength st); simpl; [apply IH|done].
Qed.

Lemma merged_weights_agree fs1 fs2 common character_lora_path character_strength :
  fs1 !! BASE_MODEL = fs2 !! BASE_MODEL →
  fs1 !! character_lora_path = fs2 !! character_lora_path →
  Forall (λ l, fs1 !! l.1 = fs2 !! l.1) common →
  merged_weights rnd fs1 common character_lora_path character_strength
  = merged_weights rnd fs2 common character_lora_path character_strength.
Proof.
  intros Hbase Hchar Hcommon. rewrite !merged_weights_unfold.
  unfold load_file. rewrite Hbase.
  destruct (fs2 !! BASE_MODEL) as [[base|]|]; [|done..].
  rewrite (apply_lora_file_agree fs1 fs2) by done.
  destruct (apply_lora_file rnd fs2 _ _ _ _); [|done].
  by apply apply_common_loras_agree.
Qed.

Lemma finalize_no_float32 w k t :
  finalize rnd w !! k = Some t → dtype t ≠ float32.
Proof.
  unfold finalize. rewrite lookup_fmap.
  destruct (w !! k) as [v|]; [|done]. simpl. intros [= <-].
  unfold finalize_tensor. case_decide; [|done]. by rewrite dtype_to_.
Qed.

Lemma merged_weights_shapes fs common character_lora_path character_strength
    base w out :
  load_file fs BASE_MODEL = Ok base →
  merged_weights rnd fs common character_lora_path character_strength = Ok (w, out) →
  shape <$> w = shape <$> base.
Proof.
  intros Hbase. rewrite merged_weights_unfold, Hbase.
  destruct (apply_lora_file rnd fs "   WARNING: Character LoRA not found at "
              character_lora_path character_strength (base, []))
    as [st|] eqn:Hchar; [|done].
  intros Hcommon.
  apply apply_lora_file_shapes in Hchar.
  apply apply_common_loras_shapes in Hcommon. simpl in *. congruence.
Qed.

(** X11: a merge job that returns has written one file, at
    [models/unet/qwen_<name>_merged.safetensors]: it loads back as a weight
    set with the names of the base model and without any float32 tensor;
    every other path of the file system holds what it held. *)
Theorem merge_writes_one_converted_file fs character_name character_lora_path
    character_strength fs' output out :
  merge_loras_for_character rnd fs character_name character_lora_path
    character_strength = Ok (fs', output, out) →
  output = "models/unet/qwen_" +:+ character_name +:+ "_merged.safetensors"
  ∧ (∃ base w,
       load_file fs BASE_MODEL = Ok base
       ∧ load_file fs' output = Ok w
       ∧ dom w = dom base
       ∧ ∀ k t, w !! k = Some t → dtype t ≠ float32)
  ∧ ∀ path, path ≠ output → fs' !! path = fs !! path.
Proof.
  unfold merge_loras_for_character.
  destruct (merged_weights rnd fs COMMON_LORAS character_lora_path character_strength)
    as [[w out']|] eqn:Hmerged; simpl; [|done].
  intros [= <- <- <-]. split_and!; [done| |].
  - destruct (load_file fs BASE_MODEL) as [base|] eqn:Hbase.
    + exists base, (finalize rnd w). split_and!; [done| | |].
      * unfold load_file, save_file. by rewrite lookup_insert_eq.
      * unfold finalize. rewrite dom_fmap_L.
        by eapply same_shapes_same_dom, merged_weights_shapes.
      * apply finalize_no_float32.
    + by rewrite merged_weights_unfold, Hbase in Hmerged.
  - intros path Hpath. unfold save_file. by rewrite lookup_insert_ne.
Qed.

(** X12: a base model that does not load, or a character adapter that
    exists and does not load, makes the merge job raise that exception
    (nothing is saved), unlike a missing adapter, which is skipped. *)
Theorem unreadable_input_aborts_merge fs character_name character_lora_path
    character_strength e :
  load_file fs BASE_MODEL = Raise e
  ∨ ((∃ base, load_file fs BASE_MODEL = Ok base)
     ∧ path_exists fs character_lora_path = true
     ∧ load_file fs character_lora_path = Raise e) →
  merge_loras_for_character rnd fs character_name character_lora_path
    character_strength = Raise e.
Proof.
  unfold merge_loras_for_character. rewrite merged_weights_unfold.
  intros [->|([base ->] & Hexists & Hload)]; [done|].
  unfold apply_lora_file. by rewrite Hexists, Hload.
Qed.

(** ** The run over the characters *)

Lemma merged_weights_insert fs output f common character_lora_path
    character_strength :
  output ≠ BASE_MODEL → output ≠ character_lora_path →
  Forall (λ l, output ≠ l.1) common →
  merged_weights rnd (<[output := f]> fs) common character_lora_path
    character_strength
  = merged_weights rnd fs common character_lora_path character_strength.
Proof.
  intros Hbase Hchar Hcommon. apply merged_weights_agree.
  - by rewrite lookup_insert_ne.
  - by rewrite lookup_insert_ne.
  - eapply list.Forall_impl; [exact Hcommon|]. intros l Hl. simpl.
    by rewrite lookup_insert_ne.
Qed.

Lemma merge_loras_for_character_unfold fs character_name character_lora_path
    character_strength :
  merge_loras_for_character rnd fs character_name character_lora_path
    character_strength
  = match merged_weights rnd fs COMMON_LORAS character_lora_path
            character_strength with
    | Ok (w, out) =>
        Ok (<[output_path_of character_name := Safetensors (finalize rnd w)]> fs,
            output_path_of character_name, out)
    | Raise e => Raise e
    end.
Proof.
  unfold merge_loras_for_character.
  by destruct (merged_weights rnd fs COMMON_LORAS _ _) as [[w out]|].
Qed.

Ltac paths_differ :=
  let H := fresh in intros H; vm_compute in H; discriminate H.

Ltac inputs_kept :=
  rewrite merged_weights_insert
    by first [ paths_differ
             | unfold COMMON_LORAS;
               repeat (apply Forall_cons; [paths_differ|]); apply Forall_nil ].

(** X13: without the base model [main] returns 1 and touches no file.
    With it, [main] returns 0 whatever happens to the merges; every
    character is merged from the files the run started with (the outputs
    of the characters before it are not among its inputs): a character
    whose merge returns gets its output file and its entry in
    [created_models], a character whose merge raises gets neither and
    does not stop the others; no path but the three outputs changes. *)
Theorem main_outcome fs :
  if path_exists fs BASE_MODEL then
    ∃ fs' created,
      main rnd fs = (0, fs', created)
      ∧ Forall (λ c,
          match merged_weights rnd fs COMMON_LORAS c.2.1 c.2.2 with
          | Ok (w, _) =>
              load_file fs' (output_path_of c.1) = Ok (finalize rnd w)
              ∧ (c.1, output_path_of c.1) ∈ created
          | Raise _ =>
              fs' !! output_path_of c.1 = fs !! output_path_of c.1
              ∧ (c.1, output_path_of c.1) ∉ created
          end) CHARACTER_LORAS
      ∧ ∀ path, path ∉ (λ c, output_path_of c.1) <$> CHARACTER_LORAS →
                fs' !! path = fs !! path
  else main rnd fs = (1, fs, []).
Proof.
  unfold main. destruct (path_exists fs BASE_MODEL); [|done].
  unfold CHARACTER_LORAS. cbn [main_loop].
  rewrite !merge_loras_for_character_unfold.
  destruct (merged_weights rnd fs COMMON_LORAS
              "models/loras/vixxxen-prefabs/Ava_QWEN_v1.safetensors" 1%Qc)
    as [[wa outa]|] eqn:Hava;
    rewrite ?merge_loras_for_character_unfold; repeat inputs_kept;
    (destruct (merged_weights rnd fs COMMON_LORAS
                 "models/loras/vixxxen-prefabs/Eve_QWEN_v1.safetensors" 1%Qc)
       as [[we oute]|] eqn:Heve);
    rewrite ?merge_loras_for_character_unfold; repeat inputs_kept;
    (destruct (merged_weights rnd fs COMMON_LORAS
                 "models/loras/vixxxen-prefabs/Suyeon_QWEN_v1.safetensors" 1%Qc)
       as [[ws outs]|] eqn:Hsuyeon);
    (do 2 eexists; split; [reflexivity|]; split).
  all: try (intros path Hpath;
            rewrite !fmap_cons, !not_elem_of_cons in Hpath; cbn [fst] in Hpath;
            destruct Hpath as (? & ? & ? & _);
            by rewrite ?lookup_insert_ne by done).
  all: repeat apply Forall_cons; try apply Forall_nil; cbn [fst snd];
       rewrite ?Hava, ?Heve, ?Hsuyeon; unfold load_file.
  all: split.
  all: try (repeat (first [ rewrite lookup_insert_eq
                          | rewrite lookup_insert_ne by paths_differ ]); done).
  all: cbn [app].
  all: try (repeat (first [ apply list_elem_of_here | apply list_elem_of_further ]);
            fail).
  all: intros Hin;
       repeat (apply elem_of_cons in Hin as [Hin|Hin];
               [vm_compute in Hin; discriminate Hin|]);
       by apply elem_of_nil in Hin.
Qed.

(** ** Two adapters, in either order *)

Lemma apply_lora_to_weights_lookup base lora_weights strength o :
  apply_lora_to_weights rnd base lora_weights strength = Ok o →
  ∃ ps,
    read_pairs lora_weights (elements (lora_keys lora_weights)) = Ok ps
    ∧ shape <$> returned o = shape <$> base
    ∧ ∀ k, returned o !! k
           = (λ x, foldl (λ x d, update_by rnd strength d x) x (deltas_at rnd base k ps))
               <$> base !! k.
Proof.
  intros Happly. pose proof (apply_lora_to_weights_shapes _ _ _ _ _ Happly) as Hsh.
  revert Happly. unfold apply_lora_to_weights. rewrite apply_pairs_read_merge.
  destruct (read_pairs lora_weights _) as [ps|]; simpl; [|done].
  destruct (merge_pairs rnd strength ps (base, 0)) as [m n] eqn:Hmerge.
  intros [= <-]. exists ps. split_and!; [done..|].
  intros k. simpl. change m with (m, n).1. by rewrite <-Hmerge, merge_pairs_lookup.
Qed.

Lemma at_tabulated d sh n f i :
  i < n → at_ (Tensor d sh (tabulate n f)) i = f i.
Proof. apply nth_tabulate. Qed.

Lemma updates_commute sa sb dsa dsb x :
  (∀ d q, rnd d q = q) →
  (λ t, (shape t, data t))
    (foldl (λ x d, update_by rnd sb d x)
       (foldl (λ x d, update_by rnd sa d x) x dsa) dsb)
  = (λ t, (shape t, data t))
      (foldl (λ x d, update_by rnd sa d x)
         (foldl (λ x d, update_by rnd sb d x) x dsb) dsa).
Proof.
  intros Hexact. destruct dsa as [|da dsa], dsb as [|db dsb]; try done.
  rewrite !(foldl_update_by rnd Hexact). cbn [shape data]. f_equal.
  apply tabulate_ext. intros i Hi.
  rewrite !at_tabulated by done. ring.
Qed.

(** X14: in exact arithmetic, two adapters applied one after the other
    give every name the same shape and the same elements in either order
    (the dtype is the one of the last delta added, so it may differ). *)
Theorem adapters_commute_on_values base lora_a lora_b sa sb oa oab ob oba :
  (∀ d q, rnd d q = q) →
  apply_lora_to_weights rnd base lora_a sa = Ok oa →
  apply_lora_to_weights rnd (returned oa) lora_b sb = Ok oab →
  apply_lora_to_weights rnd base lora_b sb = Ok ob →
  apply_lora_to_weights rnd (returned ob) lora_a sa = Ok oba →
  ∀ k, (λ t, (shape t, data t)) <$> returned oab !! k
       = (λ t, (shape t, data t)) <$> returned oba !! k.
Proof.
  intros Hexact Ha Hab Hb Hba k.
  apply apply_lora_to_weights_lookup in Ha as (psa & Hra & Hsha & Ha).
  apply apply_lora_to_weights_lookup in Hab as (psb & Hrb & _ & Hab).
  apply apply_lora_to_weights_lookup in Hb as (psb' & Hrb' & Hshb & Hb).
  apply apply_lora_to_weights_lookup in Hba as (psa' & Hra' & _ & Hba).
  assert (psa' = psa) as -> by congruence.
  assert (psb' = psb) as -> by congruence.
  rewrite Hab, Hba, Ha, Hb.
  rewrite (deltas_at_shapes rnd (returned oa) base k psb) by done.
  rewrite (deltas_at_shapes rnd (returned ob) base k psa) by done.
  destruct (base !! k) as [x|]; [|done]. simpl. f_equal.
  by apply updates_commute.
Qed.

(** ** The order of the groups *)

(** The groups are the elements of a Python [set], which the loop visits
    in an order that is not fixed.  The pairs read in two orders are the
    same up to their order, and reading raises in one order when it does
    in the other. *)
Lemma read_pairs_perm lora_weights keys keys' :
  keys ≡ₚ keys' →
  match read_pairs lora_weights keys, read_pairs lora_weights keys' with
  | Ok ps, Ok ps' => ps ≡ₚ ps'
  | Raise _, Raise _ => True
  | _, _ => False
  end.
Proof.
  induction 1 as [|g keys keys' _ IH|g g' keys|keys1 keys2 keys3 _ IH1 _ IH2].
  - simpl. reflexivity.
  - simpl. destruct (read_pair lora_weights g) as [[pr|]|]; simpl;
      destruct (read_pairs lora_weights keys), (read_pairs lora_weights keys');
      simpl; try done.
    by f_equiv.
  - simpl.
    destruct (read_pair lora_weights g) as [[pr|]|],
      (read_pair lora_weights g') as [[pr'|]|],
      (read_pairs lora_weights keys); simpl; try done.
    apply Permutation_swap.
  - destruct (read_pairs lora_weights keys1), (read_pairs lora_weights keys2),
      (read_pairs lora_weights keys3); try done.
    by etrans.
Qed.

Lemma pair_effect_shapes (m1 m2 : gmap string tensor) p :
  shape <$> m1 = shape <$> m2 →
  pair_effect rnd (shape <$> m1) (resolve_target m1 p.1) p.2.1.1 p.2.1.2 p.2.2
  = pair_effect rnd (shape <$> m2) (resolve_target m2 p.1) p.2.1.1 p.2.1.2 p.2.2.
Proof.
  intros Hshapes. unfold resolve_target.
  by rewrite (find_target_dom m1 m2), Hshapes by by apply same_shapes_same_dom.
Qed.

Lemma omap_cons_eq {A B} (f : A → option B) x (l : list A) :
  omap f (x :: l) = match f x with Some y => y :: omap f l | None => omap f l end.
Proof. done. Qed.

Lemma pair_effects_shapes (m1 m2 : gmap string tensor)
    (ps : list (string * (tensor * tensor * Qc))) :
  shape <$> m1 = shape <$> m2 →
  omap (λ p, pair_effect rnd (shape <$> m1) (resolve_target m1 p.1)
               p.2.1.1 p.2.1.2 p.2.2) ps
  = omap (λ p, pair_effect rnd (shape <$> m2) (resolve_target m2 p.1)
                 p.2.1.1 p.2.1.2 p.2.2) ps.
Proof.
  intros Hshapes. induction ps as [|p ps IH]; [done|].
  by rewrite !omap_cons_eq, IH, (pair_effect_shapes m1 m2 p Hshapes).
Qed.

(** The count after the loop: one more for each pair that has an effect
    on a working copy with the names and shapes of the first one. *)
Lemma merge_pairs_count_effects strength
    (ps : list (string * (tensor * tensor * Qc))) m n :
  (merge_pairs rnd strength ps (m, n)).2
  = n + length (omap (λ p, pair_effect rnd (shape <$> m) (resolve_target m p.1)
                             p.2.1.1 p.2.1.2 p.2.2) ps).
Proof.
  revert m n. induction ps as [|p ps IH]; intros m n; [simpl; lia|].
  unfold merge_pairs in *. cbn [foldl]. rewrite omap_cons_eq.
  pose proof (merge_pair_shapes rnd strength p.1 p.2.1.1 p.2.1.2 p.2.2 (m, n))
    as Hshapes.
  destruct (merge_pair rnd strength p.1 p.2.1.1 p.2.1.2 p.2.2 (m, n))
    as [m' n'] eqn:Hstep.
  rewrite IH. simpl in Hshapes.
  rewrite (pair_effects_shapes m' m ps Hshapes).
  rewrite merge_pair_effect in Hstep.
  destruct (pair_effect rnd (shape <$> m) _ _ _ _) as [[k d]|] eqn:Heffect.
  - assert (is_Some (m !! k)) as [target Htarget].
    { revert Heffect. unfold pair_effect.
      destruct (resolve_target m p.1) as [k'|]; [|done].
      rewrite lookup_fmap. destruct (m !! k') as [t|] eqn:Hk'; [|done]. simpl.
      destruct (delta_core rnd _ _ _ _) as [[d'|]|]; [|done..].
      case_decide; [|done]. intros [= <- _]. by eexists. }
    rewrite Htarget in Hstep. injection Hstep as _ <-. simpl. lia.
  - injection Hstep as _ <-. simpl. lia.
Qed.

Lemma sum_at_perm ds ds' i : ds ≡ₚ ds' → sum_at ds i = sum_at ds' i.
Proof.
  unfold sum_at.
  induction 1 as [|d ds ds' _ IH|d d' ds|ds1 ds2 ds3 _ IH1 _ IH2]; simpl.
  - done.
  - by rewrite IH.
  - ring.
  - congruence.
Qed.

Lemma updates_perm strength ds ds' x :
  (∀ d q, rnd d q = q) → ds ≡ₚ ds' →
  (λ t, (shape t, data t)) (foldl (λ x d, update_by rnd strength d x) x ds)
  = (λ t, (shape t, data t)) (foldl (λ x d, update_by rnd strength d x) x ds').
Proof.
  intros Hexact Hperm. destruct ds as [|d ds], ds' as [|d' ds'].
  - done.
  - by apply Permutation_nil_cons in Hperm.
  - symmetry in Hperm. by apply Permutation_nil_cons in Hperm.
  - rewrite !(foldl_update_by rnd Hexact). cbn [shape data]. f_equal.
    apply tabulate_ext. intros i _. by rewrite (sum_at_perm _ _ i Hperm).
Qed.

(** X15: the order in which the loop visits the groups of the adapter set
    (the elements of a Python [set]) does not matter for the following:
    in any order the loop raises when the call does and returns when the
    call does, with the count the call prints and the shapes of the
    weights the call returns, and in exact arithmetic with the elements
    of those weights. *)
Theorem visiting_order_is_immaterial base lora_weights strength keys :
  keys ≡ₚ elements (lora_keys lora_weights) →
  match apply_pairs rnd lora_weights strength keys (base, 0),
        apply_lora_to_weights rnd base lora_weights strength with
  | Ok st, Ok o =>
      printed o = [applied_line st.2]
      ∧ shape <$> st.1 = shape <$> returned o
      ∧ ((∀ d q, rnd d q = q) →
         ∀ k, (λ t, (shape t, data t)) <$> st.1 !! k
              = (λ t, (shape t, data t)) <$> returned o !! k)
  | Raise _, Raise _ => True
  | _, _ => False
  end.
Proof.
  intros Hperm. unfold apply_lora_to_weights. rewrite !apply_pairs_read_merge.
  pose proof (read_pairs_perm lora_weights _ _ Hperm) as Hps.
  destruct (read_pairs lora_weights keys) as [ps|],
    (read_pairs lora_weights (elements (lora_keys lora_weights))) as [ps'|];
    simpl; try done.
  destruct (merge_pairs rnd strength ps' (base, 0)) as [m' n'] eqn:Hmerge'.
  simpl. split_and!.
  - f_equal. f_equal.
    change n' with (m', n').2. rewrite <-Hmerge'.
    by rewrite !merge_pairs_count_effects, Hps.
  - change m' with (m', n').1. rewrite <-Hmerge'.
    by rewrite !merge_pairs_shapes.
  - intros Hexact k.
    change m' with (m', n').1. rewrite <-Hmerge'.
    rewrite !merge_pairs_lookup. simpl.
    destruct (base !! k) as [x|]; [|done]. simpl. f_equal.
    apply updates_perm; [done|]. unfold deltas_at. by rewrite Hps.
Qed.

End Behaviour.

(** * The further properties on the sample weight sets *)

Lemma untargeted_names_unchanged_witness :
  returned Examples.outcome_2 !! "other.weight" = Examples.base_2 !! "other.weight".
Proof.
  apply (untargeted_names_unchanged exact Examples.base_2 Examples.lora_l 1%Qc
           Examples.outcome_2 "other.weight").
  - vm_compute. reflexivity.
  - refine (bool_decide_unpack
              (set_Forall (λ g, resolve_target Examples.base_2 g ≠ Some "other.weight")
                 (lora_keys Examples.lora_l)) _).
    vm_compute. exact I.
Defined.

Lemma well_formed_adapter_never_raises_witness :
  adapter_wf Examples.lora_l
  ∧ ∃ o, apply_lora_to_weights exact Examples.base_l Examples.lora_l 1%Qc = Ok o.
Proof.
  assert (adapter_wf Examples.lora_l) as Hwf.
  { apply (bool_decide_unpack _). vm_compute. exact I. }
  split; [exact Hwf|].
  exact (well_formed_adapter_never_raises exact Examples.base_l Examples.lora_l
           1%Qc Hwf).
Defined.

Lemma malformed_pair_aborts_call_witness :
  ∃ e, apply_lora_to_weights exact Examples.base_l Examples.lora_bad_alpha 1%Qc
       = Raise e.
Proof.
  apply (malformed_pair_aborts_call exact Examples.base_l Examples.lora_bad_alpha
           1%Qc "lora_unet_layer" "lora_unet_layer.lora_down.weight"
           "lora_unet_layer.lora_up.weight" "lora_unet_layer.alpha"
           Examples.down_l).
  - apply (bool_decide_unpack _). vm_compute. exact I.
  - vm_compute. reflexivity.
  - vm_compute. reflexivity.
  - vm_compute. eexists. reflexivity.
  - right. eexists. split; [vm_compute; reflexivity|]. vm_compute. lia.
Defined.

Lemma strength_zero_keeps_elements_witness :
  tensor_wf Examples.target_l
  ∧ ∃ t', returned Examples.outcome_zero !! "layer.weight" = Some t'
          ∧ shape t' = shape Examples.target_l
          ∧ data t' = data Examples.target_l.
Proof.
  split; [vm_compute; reflexivity|].
  apply (strength_zero_keeps_elements exact Examples.base_l Examples.lora_l
           Examples.outcome_zero "layer.weight" Examples.target_l).
  - intros d x. reflexivity.
  - vm_compute. reflexivity.
  - vm_compute. reflexivity.
  - vm_compute. reflexivity.
Defined.

Lemma absent_alpha_gives_scale_one_witness :
  Examples.lora_other !! "lora_unet_other.alpha" = None
  ∧ lora_scale (Qc_of_nat 1) 1 = 1%Qc.
Proof.
  split; [vm_compute; reflexivity|].
  apply (absent_alpha_gives_scale_one Examples.lora_other "lora_unet_other"
           "lora_unet_other.lora_down.weight" "lora_unet_other.lora_up.weight"
           "lora_unet_other.alpha" Examples.down_l Examples.up_l);
    vm_compute; reflexivity.
Defined.

Lemma pointwise_kernel_delta_witness :
  ∃ delta,
    lora_delta exact Examples.up_p Examples.down_p 1%Qc 1%Qc Examples.target_p
    = Ok (Some delta)
    ∧ shape delta = shape Examples.target_p
    ∧ dtype delta = dtype Examples.up_p
    ∧ ((∀ d x, exact d x = x) →
       ∀ a b c, a < 1 → b < 1 → c < 2 →
         at_ delta ((a * 1 + b) * 2 + c)
         = (sum_upto 1 (λ l, (at_ Examples.up_p (a * 1 + l)
                              * at_ Examples.down_p ((l * 1 + b) * 2 + c))%Qc)
            * 1 * 1)%Qc).
Proof.
  apply (pointwise_kernel_delta exact Examples.up_p Examples.down_p 1%Qc 1%Qc
           Examples.target_p 1 1 1 2);
    vm_compute; reflexivity.
Defined.

Lemma linear_pair_applied_iff_witness :
  ((merge_pair exact 1%Qc "lora_unet_layer" Examples.down_l Examples.up_l 1%Qc
      (Examples.base_l, 0)).2 = 1
   ↔ 1 = 1 ∧ dtype Examples.up_l = dtype Examples.down_l
     ∧ shape Examples.target_l = [2; 2])
  ∧ (¬ (1 = 1 ∧ dtype Examples.up_l = dtype Examples.down_l
        ∧ shape Examples.target_l = [2; 2]) →
     merge_pair exact 1%Qc "lora_unet_layer" Examples.down_l Examples.up_l 1%Qc
       (Examples.base_l, 0)
     = (Examples.base_l, 0)).
Proof.
  apply (linear_pair_applied_iff exact 1%Qc "lora_unet_layer" Examples.down_l
           Examples.up_l 1%Qc Examples.base_l 0 "layer.weight" Examples.target_l
           2 1 1 2);
    vm_compute; reflexivity.
Defined.

Lemma applied_zero_returns_base_witness :
  apply_lora_to_weights exact Examples.base_l Examples.lora_other 1%Qc
  = Ok {| returned := Examples.base_l;
          printed := ["    Applied 0 LoRA weight pairs"] |}
  ∧ returned {| returned := Examples.base_l;
                printed := ["    Applied 0 LoRA weight pairs"] |}
    = Examples.base_l.
Proof.
  split; [vm_compute; reflexivity|].
  apply (applied_zero_returns_base exact Examples.base_l Examples.lora_other 1%Qc).
  - vm_compute. reflexivity.
  - reflexivity.
Defined.

Lemma group_of_down_key_is_visited_witness :
  "lora_unet_layer" ∈ lora_keys Examples.lora_l
  ∧ is_Some (select_keys Examples.lora_l "lora_unet_layer").
Proof.
  apply (group_of_down_key_is_visited Examples.lora_l "lora_unet_layer").
  left. split; [vm_compute; reflexivity|]. vm_compute. eexists. reflexivity.
Defined.

Lemma no_down_factor_applies_nothing_witness :
  apply_lora_to_weights exact Examples.base_l Examples.lora_up_only 1%Qc
  = Ok {| returned := Examples.base_l;
          printed := ["    Applied 0 LoRA weight pairs"] |}.
Proof.
  apply (no_down_factor_applies_nothing exact Examples.base_l
           Examples.lora_up_only 1%Qc).
  apply (bool_decide_unpack _). vm_compute. exact I.
Defined.

Lemma merge_writes_one_converted_file_witness :
  Examples.merge_l.1.2 = "models/unet/qwen_" +:+ "ava" +:+ "_merged.safetensors"
  ∧ (∃ base w,
       load_file Examples.fs_l BASE_MODEL = Ok base
       ∧ load_file Examples.merge_l.1.1 Examples.merge_l.1.2 = Ok w
       ∧ dom w = dom base
       ∧ ∀ k t, w !! k = Some t → dtype t ≠ float32)
  ∧ ∀ path, path ≠ Examples.merge_l.1.2 →
            Examples.merge_l.1.1 !! path = Examples.fs_l !! path.
Proof.
  apply (merge_writes_one_converted_file exact Examples.fs_l "ava"
           Examples.ava_path 1%Qc Examples.merge_l.1.1 Examples.merge_l.1.2
           Examples.merge_l.2).
  vm_compute. reflexivity.
Defined.

Lemma unreadable_input_aborts_merge_witness :
  path_exists Examples.fs_bad Examples.ava_path = true
  ∧ merge_loras_for_character exact Examples.fs_bad "ava" Examples.ava_path 1%Qc
    = Raise SafetensorError.
Proof.
  split; [vm_compute; reflexivity|].
  apply (unreadable_input_aborts_merge exact Examples.fs_bad "ava"
           Examples.ava_path 1%Qc SafetensorError).
  right. split; [eexists; vm_compute; reflexivity|].
  split; vm_compute; reflexivity.
Defined.

Lemma adapters_commute_on_values_witness :
    (λ t, (shape t, data t))
      <$> returned (Examples.after (returned (Examples.after Examples.base_l
                                                Examples.lora_l 1%Qc))
                      Examples.lora_m 2%Qc) !! "layer.weight"
    = (λ t, (shape t, data t))
        <$> returned (Examples.after (returned (Examples.after Examples.base_l
                                                  Examples.lora_m 2%Qc))
                        Examples.lora_l 1%Qc) !! "layer.weight".
Proof.
  refine (adapters_commute_on_values exact Examples.base_l Examples.lora_l
           Examples.lora_m 1%Qc 2%Qc
           (Examples.after Examples.base_l Examples.lora_l 1%Qc)
           (Examples.after (returned (Examples.after Examples.base_l
                                        Examples.lora_l 1%Qc))
              Examples.lora_m 2%Qc)
           (Examples.after Examples.base_l Examples.lora_m 2%Qc)
           (Examples.after (returned (Examples.after Examples.base_l
                                        Examples.lora_m 2%Qc))
              Examples.lora_l 1%Qc) _ _ _ _ _ "layer.weight").
  - intros d x. reflexivity.
  - vm_compute. reflexivity.
  - vm_compute. reflexivity.
  - vm_compute. reflexivity.
  - vm_compute. reflexivity.
Defined.

Lemma visiting_order_is_immaterial_witness :
  match apply_pairs exact Examples.lora_two 1%Qc
          (reverse (elements (lora_keys Examples.lora_two))) (Examples.base_l, 0),
        apply_lora_to_weights exact Examples.base_l Examples.lora_two 1%Qc with
  | Ok st, Ok o =>
      printed o = [applied_line st.2]
      ∧ shape <$> st.1 = shape <$> returned o
      ∧ ((∀ d x, exact d x = x) →
         ∀ k, (λ t, (shape t, data t)) <$> st.1 !! k
              = (λ t, (shape t, data t)) <$> returned o !! k)
  | Raise _, Raise _ => True
  | _, _ => False
  end.
Proof.
  apply (visiting_order_is_immaterial exact Examples.base_l Examples.lora_two 1%Qc
           (reverse (elements (lora_keys Examples.lora_two)))).
  apply reverse_Permutation.
Defined.

(** The two groups of [lora_two] are both applied, in the order of
    [elements] and in the reverse order. *)
Example two_groups_in_both_orders :
  snd <$> apply_pairs exact Examples.lora_two 1%Qc
            (elements (lora_keys Examples.lora_two)) (Examples.base_l, 0) = Ok 2
  ∧ snd <$> apply_pairs exact Examples.lora_two 1%Qc
              (reverse (elements (lora_keys Examples.lora_two))) (Examples.base_l, 0)
    = Ok 2.
Proof. split; vm_compute; reflexivity. Qed.
